(** * A shallow embedding of [data_load.py] (zacasatru/TFG_Info)

    The module reads a tab-separated annotation file, keeps the rows of
    type "Argumento", builds [Evaluation] and [EvaluatedArgument] objects,
    groups them in a [Corpus] (a Python dict from proposal id to a list of
    arguments) and derives filtered and balanced corpora from it.

    Modelling choices:
    - Python exceptions are the constructors of [PyErr]; fallible code
      returns a [result].
    - A Python dict keeps insertion order and unique keys: a [Corpus] is an
      association list, [corpus_set] overwrites a key in place or adds it at
      the end, as [d[k] = v] does.
    - [random.sample] is the only source of nondeterminism.  It is a
      function [sample] of an explicit random state, threaded through the
      code; theorems quantify over every such function satisfying
      [sample_ok] (the result has the requested length and is drawn without
      replacement from the population).
    - A Python [str] is a [string] whose characters are the code points
      0 to 255 (Latin-1).  [int(s)] is [py_int], which follows CPython's
      [int()] on these code points: surrounding whitespace, an optional
      sign, decimal digits with single underscores between them. *)

From Stdlib Require Import ZArith String Ascii Bool Lia DecimalString DecimalPos.
From stdpp Require Import base list.

Local Open Scope string_scope.

(* ------------------------------------------------------------------ *)
(** ** Python errors and the result type *)

Inductive PyErr := ValueError | AttributeError | UnboundLocalError.

Inductive result (A : Type) : Type :=
| Ok (a : A)
| Err (e : PyErr).
Arguments Ok {A} a.
Arguments Err {A} e.

Definition bind {A B} (m : result A) (k : A -> result B) : result B :=
  match m with Ok a => k a | Err e => Err e end.

Notation "'let*' x ':=' m 'in' k" := (bind m (fun x => k))
  (at level 200, x name, m at level 100, k at level 200).

(* ------------------------------------------------------------------ *)
(** ** [int(s)] *)

Definition digit_val (c : ascii) : option Z :=
  let n := nat_of_ascii c in
  if (48 <=? n)%nat && (n <=? 57)%nat then Some (Z.of_nat (n - 48)) else None.

(** The characters [int()] skips around the number: [str.isspace] ones
    among the code points 0 to 255, except the separators U+001C to U+001F,
    which CPython's [int()] refuses. *)
Definition py_space (c : ascii) : bool :=
  let n := nat_of_ascii c in
  ((9 <=? n)%nat && (n <=? 13)%nat) || (n =? 32)%nat || (n =? 133)%nat || (n =? 160)%nat.

Fixpoint skip_spaces (s : string) : string :=
  match s with
  | String c s' => if py_space c then skip_spaces s' else s
  | EmptyString => EmptyString
  end.

Fixpoint all_spaces (s : string) : bool :=
  match s with
  | String c s' => py_space c && all_spaces s'
  | EmptyString => true
  end.

(** The rest of the number after a digit, with value [acc] so far: more
    digits, each possibly preceded by one underscore, then only spaces. *)
Fixpoint digits_acc (s : string) (acc : Z) : option Z :=
  match s with
  | EmptyString => Some acc
  | String c s' =>
      match digit_val c with
      | Some d => digits_acc s' (acc * 10 + d)%Z
      | None =>
          if Ascii.eqb c "_" then
            match s' with
            | String c' s'' =>
                match digit_val c' with
                | Some d => digits_acc s'' (acc * 10 + d)%Z
                | None => None
                end
            | EmptyString => None
            end
          else if all_spaces s then Some acc
          else None
      end
  end.

(** The digits after the sign: a first digit, then [digits_acc]. *)
Definition parse_digits (s : string) : option Z :=
  match s with
  | String c s' =>
      match digit_val c with Some d => digits_acc s' d | None => None end
  | EmptyString => None
  end.

Definition py_int (s : string) : option Z :=
  match skip_spaces s with
  | String "-"%char s' => option_map Z.opp (parse_digits s')
  | String "+"%char s' => parse_digits s'
  | s' => parse_digits s'
  end.

(** [int(s)], raising [ValueError] on a string that is not an integer. *)
Definition int_ (s : string) : result Z :=
  match py_int s with Some z => Ok z | None => Err ValueError end.

(* ------------------------------------------------------------------ *)
(** ** [Evaluation] *)

(** The eight annotation fields; [None] is Python's [None] (the class
    attribute default, left in place when [__init__] does not assign the
    field). *)
Record Evaluation := mkEvaluation {
  claim : Z;
  claim_premise : option Z;
  aspect : option Z;
  premise_validation : option Z;
  coherence : option Z;
  consistence : option Z;
  persuasion : option Z;
  emotional_ethic : option Z
}.

(** [Evaluation.__init__]: the gates compare the raw strings with ["1"]. *)
Definition Evaluation_init
    (claim_s claim_premise_s aspect_s premise_validation_s coherence_s
     consistence_s persuasion_s emotional_ethic_s : string)
  : result Evaluation :=
  let* c := int_ claim_s in
  if String.eqb claim_s "1" then
    let* cp := int_ claim_premise_s in
    let* a := int_ aspect_s in
    if String.eqb claim_premise_s "1" then
      let* pv := int_ premise_validation_s in
      let* coh := int_ coherence_s in
      let* cons := int_ consistence_s in
      let* pers := int_ persuasion_s in
      let* emo := int_ emotional_ethic_s in
      Ok (mkEvaluation c (Some cp) (Some a) (Some pv) (Some coh) (Some cons)
            (Some pers) (Some emo))
    else
      Ok (mkEvaluation c (Some cp) (Some a) None None None None None)
  else
    Ok (mkEvaluation c None None None None None None None).

(** Python objects an attribute lookup on an [Evaluation] can return: an
    int, [None], or another attribute (a bound method, the docstring, a
    dunder attribute inherited from [object]) named by its name. *)
Inductive PyObj := PInt (z : Z) | PNone | PAttr (name : string).

Definition obj_of_opt (o : option Z) : PyObj :=
  match o with Some z => PInt z | None => PNone end.

Definition evaluation_fields : list string :=
  ["claim"; "claim_premise"; "aspect"; "premise_validation"; "coherence";
   "consistence"; "persuasion"; "emotional_ethic"].

(** The attributes other than the eight fields that an [Evaluation]
    instance has: those its class body defines and those inherited from
    [object], as [dir()] lists them on CPython 3.11 and 3.12. *)
Definition evaluation_other_attrs : list string :=
  ["__init__"; "get_field"; "format_print"; "format_file"; "__doc__";
   "__module__"; "__annotations__"; "__dict__"; "__weakref__";
   "__class__"; "__delattr__"; "__dir__"; "__eq__"; "__format__"; "__ge__";
   "__getattribute__"; "__getstate__"; "__gt__"; "__hash__";
   "__init_subclass__"; "__le__"; "__lt__"; "__ne__"; "__new__";
   "__reduce__"; "__reduce_ex__"; "__repr__"; "__setattr__"; "__sizeof__";
   "__str__"; "__subclasshook__"].

(** [getattr(self, name)] on an [Evaluation]; [__weakref__] is [None] on an
    object no weak reference points to. *)
Definition getattr (e : Evaluation) (name : string) : result PyObj :=
  if String.eqb name "claim" then Ok (PInt (claim e))
  else if String.eqb name "claim_premise" then Ok (obj_of_opt (claim_premise e))
  else if String.eqb name "aspect" then Ok (obj_of_opt (aspect e))
  else if String.eqb name "premise_validation" then Ok (obj_of_opt (premise_validation e))
  else if String.eqb name "coherence" then Ok (obj_of_opt (coherence e))
  else if String.eqb name "consistence" then Ok (obj_of_opt (consistence e))
  else if String.eqb name "persuasion" then Ok (obj_of_opt (persuasion e))
  else if String.eqb name "emotional_ethic" then Ok (obj_of_opt (emotional_ethic e))
  else if String.eqb name "__weakref__" then Ok PNone
  else if existsb (String.eqb name) evaluation_other_attrs then Ok (PAttr name)
  else Err AttributeError.

(** [Evaluation.get_field] *)
Definition get_field (e : Evaluation) (field_name : string) : result PyObj :=
  getattr e field_name.

(* ------------------------------------------------------------------ *)
(** ** [EvaluatedArgument] and [Corpus] *)

Record EvaluatedArgument := mkEvaluatedArgument {
  id_proposal : Z;
  id_argument : Z;
  argument : string;
  evaluation : Evaluation
}.

Definition get_evaluation (a : EvaluatedArgument) : Evaluation := evaluation a.

(** [Corpus.arguments_dict]. *)
Definition Corpus := list (Z * list EvaluatedArgument).

Definition empty_corpus : Corpus := [].

(** [d.get(k)] *)
Fixpoint corpus_lookup (k : Z) (c : Corpus) : option (list EvaluatedArgument) :=
  match c with
  | [] => None
  | (k', v) :: rest => if Z.eqb k k' then Some v else corpus_lookup k rest
  end.

(** [d[k] = v] *)
Fixpoint corpus_set (k : Z) (v : list EvaluatedArgument) (c : Corpus) : Corpus :=
  match c with
  | [] => [(k, v)]
  | (k', v') :: rest =>
      if Z.eqb k k' then (k', v) :: rest else (k', v') :: corpus_set k v rest
  end.

Definition corpus_keys (c : Corpus) : list Z := map fst c.

(** [Corpus._append_argument]: the membership test uses [proposal_id], the
    new entry is stored under [argument.id_proposal]. *)
Definition append_argument (c : Corpus) (proposal_id : Z) (a : EvaluatedArgument)
  : Corpus :=
  match corpus_lookup proposal_id c with
  | Some l => corpus_set proposal_id (l ++ [a]) c
  | None => corpus_set (id_proposal a) [a] c
  end.

(** [Corpus.append_all_arguments] *)
Fixpoint append_all_arguments (c : Corpus) (proposal_id : Z)
    (arguments : list EvaluatedArgument) : Corpus :=
  match arguments with
  | [] => c
  | a :: rest => append_all_arguments (append_argument c proposal_id a) proposal_id rest
  end.

(* ------------------------------------------------------------------ *)
(** ** Filtering *)

(** The [values] parameter: a list, or a single value that the code wraps
    in a one-element list. *)
Inductive FilterValues :=
| VOne (v : option Z)
| VList (vs : list (option Z)).

Definition values_list (values : FilterValues) : list (option Z) :=
  match values with VOne v => [v] | VList vs => vs end.

Definition opt_eqb (x y : option Z) : bool :=
  match x, y with
  | Some a, Some b => Z.eqb a b
  | None, None => true
  | _, _ => false
  end.

(** [obj in values]: a bound method or other attribute equals no int and
    not [None]. *)
Definition py_in (o : PyObj) (vs : list (option Z)) : bool :=
  match o with
  | PInt z => existsb (opt_eqb (Some z)) vs
  | PNone => existsb (opt_eqb None) vs
  | PAttr _ => false
  end.

(** [[a for a in arguments if a.get_evaluation().get_field(f) in values]] *)
Fixpoint filter_matching (field_name : string) (vs : list (option Z))
    (arguments : list EvaluatedArgument) : result (list EvaluatedArgument) :=
  match arguments with
  | [] => Ok []
  | a :: rest =>
      let* o := get_field (get_evaluation a) field_name in
      let* rest' := filter_matching field_name vs rest in
      Ok (if py_in o vs then a :: rest' else rest')
  end.

(** [a.get_evaluation().get_field("claim_premise") != 1] *)
Definition is_non_argument (a : EvaluatedArgument) : bool :=
  match get_field (get_evaluation a) "claim_premise" with
  | Ok (PInt 1) => false
  | _ => true
  end.

(** The loop of [Corpus.filter_by] over the keys of the receiver. *)
Fixpoint filter_by_loop (field_name : string) (vs : list (option Z))
    (entries : Corpus) (filtered : Corpus) : result Corpus :=
  match entries with
  | [] => Ok filtered
  | (proposal_id, arguments) :: rest =>
      let* matched := filter_matching field_name vs arguments in
      filter_by_loop field_name vs rest
        (append_all_arguments filtered proposal_id matched)
  end.

(** [Corpus.filter_by] *)
Definition filter_by (c : Corpus) (field_name : string) (values : FilterValues)
  : result Corpus :=
  filter_by_loop field_name (values_list values) c empty_corpus.

(* ------------------------------------------------------------------ *)
(** ** Sampling and the code that uses it *)

Section Sampling.

(** [random.sample(data, n)] with the random state made explicit. *)
Context {Rnd : Type}
  (sample : Rnd -> list EvaluatedArgument -> nat -> list EvaluatedArgument * Rnd).

(** [take_n_random_elements] *)
Definition take_n_random_elements (r : Rnd) (data : list EvaluatedArgument) (n : nat)
  : list EvaluatedArgument * Rnd :=
  if (length data <=? n)%nat then (data, r) else sample r data n.

(** The loop of [Corpus.filter_by_completed]. *)
Fixpoint filter_by_completed_loop (field_name : string) (vs : list (option Z))
    (entries : Corpus) (filtered : Corpus) (r : Rnd) : result (Corpus * Rnd) :=
  match entries with
  | [] => Ok (filtered, r)
  | (proposal_id, arguments) :: rest =>
      let* matched := filter_matching field_name vs arguments in
      let number_filtered := length matched in
      let filtered1 := append_all_arguments filtered proposal_id matched in
      let non_arguments := List.filter is_non_argument arguments in
      let '(sampled, r1) := take_n_random_elements r non_arguments number_filtered in
      filter_by_completed_loop field_name vs rest
        (append_all_arguments filtered1 proposal_id sampled) r1
  end.

(** [Corpus.filter_by_completed] *)
Definition filter_by_completed (r : Rnd) (c : Corpus) (field_name : string)
    (values : FilterValues) : result (Corpus * Rnd) :=
  filter_by_completed_loop field_name (values_list values) c empty_corpus r.

(** A row of the input file, by the columns the code reads. *)
Record Row := mkRow {
  tipo_elemento : string;          (* "Tipo elemento" *)
  id_propuesta : string;           (* "Id propuesta" *)
  id_elemento : string;            (* "Id elemento" *)
  valor : string;                  (* "Valor" *)
  row_claim : string;              (* "Claim?" *)
  row_claim_premise : string;      (* "Claim+premise?\nWHY?" *)
  row_aspect : string;             (* "Relacionado con aspecto?" *)
  row_premise_validation : string; (* "Validación premisa(s)" *)
  row_coherence : string;          (* "Coherencia lógica p->c" *)
  row_consistence : string;        (* "Consistencia p1 <> p2" *)
  row_persuasion : string;         (* "Persuasión" *)
  row_emotional_ethic : string     (* "Apelación emocioal/ética (pathos/ethos)" *)
}.

Definition row_evaluation (row : Row) : result Evaluation :=
  Evaluation_init (row_claim row) (row_claim_premise row) (row_aspect row)
    (row_premise_validation row) (row_coherence row) (row_consistence row)
    (row_persuasion row) (row_emotional_ethic row).


(** Python values compared by [!=] in [create_complete_corpus]: a value of
    one type is never equal to a value of the other. *)
Inductive PyVal := VInt (z : Z) | VStr (s : string).

Definition py_eq (x y : PyVal) : bool :=
  match x, y with
  | VInt a, VInt b => Z.eqb a b
  | VStr a, VStr b => String.eqb a b
  | _, _ => false
  end.

(** The locals of the loop of [create_complete_corpus]; [data] is [None]
    while unbound. *)
Record CompleteState := mkCompleteState {
  cc_proposal_id : Z;
  cc_data : option (list EvaluatedArgument);
  cc_corpus : Corpus
}.

Definition complete_init : CompleteState := mkCompleteState (-1) None empty_corpus.

(** One iteration of the loop of [create_complete_corpus].  The test
    [row["Id propuesta"] != proposal_id] compares the raw string with the
    int [proposal_id]. *)
Definition complete_step (st : CompleteState) (row : Row) : result CompleteState :=
  if negb (String.eqb (tipo_elemento row) "Argumento") then Ok st else
  let* st1 :=
    if negb (py_eq (VStr (id_propuesta row)) (VInt (cc_proposal_id st))) then
      let* c :=
        if negb (Z.eqb (cc_proposal_id st) (-1)) then
          match cc_data st with
          | Some data => Ok (append_all_arguments (cc_corpus st) (cc_proposal_id st) data)
          | None => Err UnboundLocalError
          end
        else Ok (cc_corpus st) in
      let* pid := int_ (id_propuesta row) in
      Ok (mkCompleteState pid (Some []) c)
    else Ok st in
  let* e := row_evaluation row in
  let* ida := int_ (id_elemento row) in
  let a := mkEvaluatedArgument (cc_proposal_id st1) ida (valor row) e in
  match cc_data st1 with
  | None => Err UnboundLocalError
  | Some data => Ok (mkCompleteState (cc_proposal_id st1) (Some (data ++ [a])%list) (cc_corpus st1))
  end.

Fixpoint complete_run (st : CompleteState) (rows : list Row) : result CompleteState :=
  match rows with
  | [] => Ok st
  | row :: rest =>
      let* st' := complete_step st row in
      complete_run st' rest
  end.

(** [create_complete_corpus]: the loop, then [return corpus]. *)
Definition create_complete_corpus (rows : list Row) : result Corpus :=
  let* st := complete_run complete_init rows in
  Ok (cc_corpus st).

(** The locals of the one-pass loop.  [buckets] is [None] while
    [evaluated_data] and [non_evaluated_data] are unbound. *)
Record OptState := mkOptState {
  proposal_id : Z;
  buckets : option (list EvaluatedArgument * list EvaluatedArgument);
  corpus : Corpus;
  rnd : Rnd
}.

Definition opt_init (r : Rnd) : OptState := mkOptState (-1) None empty_corpus r.

(** Lines 244-255: balance the two buckets of the active group and commit
    them to the corpus. *)
Definition balance_and_commit (r : Rnd) (pid : Z)
    (evaluated_data non_evaluated_data : list EvaluatedArgument) (c : Corpus)
  : Corpus * Rnd :=
  let eval_args_number := length evaluated_data in
  let non_evaluated_args_number := length non_evaluated_data in
  let '(ev, nev, r') :=
    if (eval_args_number <? non_evaluated_args_number)%nat then
      let '(nev, r1) := take_n_random_elements r non_evaluated_data eval_args_number in
      (evaluated_data, nev, r1)
    else if (non_evaluated_args_number <? eval_args_number)%nat then
      let '(ev, r1) := take_n_random_elements r evaluated_data non_evaluated_args_number in
      (ev, non_evaluated_data, r1)
    else (evaluated_data, non_evaluated_data, r) in
  (append_all_arguments (append_all_arguments c pid ev) pid nev, r').

(** One iteration of the loop of the one-pass functions.  [bucket_of]
    says where a row goes: [Some true] to [evaluated_data], [Some false]
    to [non_evaluated_data], [None] to neither. *)
Definition opt_step (bucket_of : Row -> option bool) (st : OptState) (row : Row)
  : result OptState :=
  if negb (String.eqb (tipo_elemento row) "Argumento") then Ok st else
  let* pid := int_ (id_propuesta row) in
  let* st1 :=
    if negb (Z.eqb pid (proposal_id st)) then
      let* cr :=
        if negb (Z.eqb (proposal_id st) (-1)) then
          match buckets st with
          | Some (ev, nev) =>
              Ok (balance_and_commit (rnd st) (proposal_id st) ev nev (corpus st))
          | None => Err UnboundLocalError
          end
        else Ok (corpus st, rnd st) in
      Ok (mkOptState pid (Some ([], [])) (fst cr) (snd cr))
    else Ok st in
  let* e := row_evaluation row in
  let* ida := int_ (id_elemento row) in
  let a := mkEvaluatedArgument (proposal_id st1) ida (valor row) e in
  match bucket_of row with
  | None => Ok st1
  | Some b =>
      match buckets st1 with
      | None => Err UnboundLocalError
      | Some (ev, nev) =>
          Ok (mkOptState (proposal_id st1)
                (Some (if b then ((ev ++ [a])%list, nev) else (ev, (nev ++ [a])%list)))
                (corpus st1) (rnd st1))
      end
  end.

Fixpoint opt_run (bucket_of : Row -> option bool) (st : OptState) (rows : list Row)
  : result OptState :=
  match rows with
  | [] => Ok st
  | row :: rest =>
      let* st' := opt_step bucket_of st row in
      opt_run bucket_of st' rest
  end.

(** [if row["Claim+premise?\nWHY?"] == "1": ... else: ...] *)
Definition bucket_claim_premise (row : Row) : option bool :=
  Some (String.eqb (row_claim_premise row) "1").

(** [if cp == "1" and aspect == "1": ... elif cp != "1": ...] *)
Definition bucket_claim_premise_aspect (row : Row) : option bool :=
  if String.eqb (row_claim_premise row) "1" && String.eqb (row_aspect row) "1"
  then Some true
  else if negb (String.eqb (row_claim_premise row) "1") then Some false
  else None.

(** [classify_arguments_or_not_opt]: the loop, then [return corpus]. *)
Definition classify_arguments_or_not_opt (r : Rnd) (rows : list Row)
  : result (Corpus * Rnd) :=
  let* st := opt_run bucket_claim_premise (opt_init r) rows in
  Ok (corpus st, rnd st).

(** [classify_arguments_or_not_with_aspect_opt] *)
Definition classify_arguments_or_not_with_aspect_opt (r : Rnd) (rows : list Row)
  : result (Corpus * Rnd) :=
  let* st := opt_run bucket_claim_premise_aspect (opt_init r) rows in
  Ok (corpus st, rnd st).


(** [classify_arguments_or_not] *)
Definition classify_arguments_or_not (r : Rnd) (rows : list Row)
  : result (Corpus * Rnd) :=
  let* c := create_complete_corpus rows in
  filter_by_completed r c "claim_premise" (VOne (Some 1%Z)).

(** [classify_arguments_or_not_with_aspect] *)
Definition classify_arguments_or_not_with_aspect (r : Rnd) (rows : list Row)
  : result (Corpus * Rnd) :=
  let* c := create_complete_corpus rows in
  let* cr := filter_by_completed r c "claim_premise" (VOne (Some 1%Z)) in
  filter_by_completed (snd cr) (fst cr) "aspect" (VOne (Some 1%Z)).

End Sampling.

Local Close Scope string_scope.

(* ------------------------------------------------------------------ *)
(** ** Formatting *)

Local Open Scope string_scope.

Definition tab_char : ascii := "009"%char.
Definition nl_char : ascii := "010"%char.

(** ["\t"] and ["\n"] *)
Definition tab : string := String tab_char EmptyString.
Definition nl : string := String nl_char EmptyString.

(** [str(z)] for an int. *)
Definition str_Z (z : Z) : string := NilEmpty.string_of_int (Z.to_int z).

(** [str(x)] for a field holding an int or [None]. *)
Definition str_opt (o : option Z) : string :=
  match o with Some z => str_Z z | None => "None" end.

(** [[f(x) for x in l]] where [f] may raise. *)
Fixpoint map_result {A B : Type} (f : A -> result B) (l : list A) : result (list B) :=
  match l with
  | [] => Ok []
  | x :: rest =>
      let* y := f x in
      let* ys := map_result f rest in
      Ok (y :: ys)
  end.

Section Formatting.

(** [str()] of an attribute other than the fields (the repr of a bound
    method holds the address of the object), left abstract. *)
Context (attr_str : string -> string).

Definition str_obj (o : PyObj) : string :=
  match o with PInt z => str_Z z | PNone => "None" | PAttr name => attr_str name end.

(** [Evaluation.format_print] *)
Definition Evaluation_format_print (e : Evaluation) : string :=
  "Claim: " ++ str_Z (claim e)
  ++ ", Claim+premise: " ++ str_opt (claim_premise e)
  ++ ", Aspect related: " ++ str_opt (aspect e)
  ++ ", Premise validation: " ++ str_opt (premise_validation e)
  ++ ", Coherence: " ++ str_opt (coherence e)
  ++ ", Consistence: " ++ str_opt (consistence e)
  ++ ", Persuasion: " ++ str_opt (persuasion e)
  ++ ", Emotional/ethic: " ++ str_opt (emotional_ethic e).

(** [Evaluation.format_file]: ["\t".join([str(self.get_field(f)) for f in fields])] *)
Definition Evaluation_format_file (e : Evaluation) (fields : list string) : result string :=
  let* strs := map_result (fun field => let* o := get_field e field in Ok (str_obj o)) fields in
  Ok (String.concat tab strs).

(** [EvaluatedArgument.format_print] *)
Definition EvaluatedArgument_format_print (a : EvaluatedArgument) : string :=
  tab ++ "Argument id: " ++ str_Z (id_argument a)
  ++ nl ++ tab ++ "Argument: " ++ argument a
  ++ nl ++ tab ++ "Evaluation: " ++ Evaluation_format_print (evaluation a)
  ++ nl ++ nl.

(** [EvaluatedArgument.format_file] *)
Definition EvaluatedArgument_format_file (a : EvaluatedArgument) (fields : list string)
  : result string :=
  let* ev := Evaluation_format_file (evaluation a) fields in
  Ok (str_Z (id_argument a) ++ tab ++ argument a ++ tab ++ ev).

(** [Corpus.format_print] *)
Definition Corpus_format_print (c : Corpus) : string :=
  fold_left (fun cad '(proposal_id, arguments) =>
      fold_left (fun cad a => cad ++ EvaluatedArgument_format_print a) arguments
        (cad ++ ("Proposal id: " ++ str_Z proposal_id ++ nl ++ nl)))
    c "".

(** The inner loop of [Corpus.format_file], over the arguments of one key. *)
Fixpoint format_file_arguments (proposal_id : Z) (fields : list string)
    (arguments : list EvaluatedArgument) (cad : string) : result string :=
  match arguments with
  | [] => Ok cad
  | a :: rest =>
      let* af := EvaluatedArgument_format_file a fields in
      format_file_arguments proposal_id fields rest
        (cad ++ (str_Z proposal_id ++ tab ++ af ++ nl))
  end.

(** The outer loop of [Corpus.format_file], over the keys. *)
Fixpoint format_file_loop (fields : list string) (entries : Corpus) (cad : string)
  : result string :=
  match entries with
  | [] => Ok cad
  | (proposal_id, arguments) :: rest =>
      let* cad' := format_file_arguments proposal_id fields arguments cad in
      format_file_loop fields rest cad'
  end.

(** [Corpus.format_file] *)
Definition Corpus_format_file (c : Corpus) (fields : list string) : result string :=
  format_file_loop fields c
    ("proposal_id" ++ tab ++ "argument_id" ++ tab ++ "argument" ++ tab
     ++ String.concat tab fields ++ nl).

(** [Corpus.save_to_file]: the text it writes to the file. *)
Definition save_to_file (c : Corpus) (fields : list string) : result string :=
  Corpus_format_file c fields.

End Formatting.

(** The default [fields] of [save_to_file]. *)
Definition save_to_file_default_fields : list string := evaluation_fields.

Local Close Scope string_scope.

(* ------------------------------------------------------------------ *)
(** ** Vocabulary of the statements *)

(** What [random.sample(data, n)] guarantees for [n < len(data)]: [n]
    elements drawn without replacement from [data]. *)
Definition sample_ok {Rnd : Type}
    (sample : Rnd -> list EvaluatedArgument -> nat -> list EvaluatedArgument * Rnd)
  : Prop :=
  forall r data n, (n < length data)%nat ->
    length (fst (sample r data n)) = n /\ fst (sample r data n) ⊆+ data.

(** A sampler taking the first [n] elements and leaving the state alone. *)
Definition sample_first (u : unit) (data : list EvaluatedArgument) (n : nat)
  : list EvaluatedArgument * unit :=
  (take n data, u).

Fixpoint nodupb (l : list Z) : bool :=
  match l with
  | [] => true
  | x :: rest => negb (existsb (Z.eqb x) rest) && nodupb rest
  end.

(** A corpus as the module builds it: a dict (unique keys) in which every
    argument is stored under its own proposal id. *)
Definition corpus_wfb (c : Corpus) : bool :=
  nodupb (corpus_keys c)
  && forallb (fun '(k, args) => forallb (fun a => Z.eqb (id_proposal a) k) args) c.

Definition corpus_wf (c : Corpus) : Prop := corpus_wfb c = true.

(** [len(d.get(k, []))] *)
Definition len_at (k : Z) (c : Corpus) : nat :=
  length (default [] (corpus_lookup k c)).

(** The entry of a key after appending [l] under it. *)
Definition entry_after (o : option (list EvaluatedArgument)) (l : list EvaluatedArgument)
  : option (list EvaluatedArgument) :=
  match o with
  | Some l0 => Some (l0 ++ l)
  | None => match l with [] => None | _ :: _ => Some l end
  end.

(** [get_field("claim_premise") == 1] *)
Definition is_argument (a : EvaluatedArgument) : bool := negb (is_non_argument a).

(** The buckets of a one-pass state hold arguments of the active group. *)
Definition opt_bucket_inv {Rnd : Type} (st : @OptState Rnd) : Prop :=
  match buckets st with
  | Some (ev, nev) =>
      Forall (fun a => id_proposal a = proposal_id st) ev /\
      Forall (fun a => id_proposal a = proposal_id st) nev
  | None => True
  end.

(** [a.get_evaluation().get_field(f) in values], false where [get_field]
    raises. *)
Definition field_matches (f : string) (vs : list (option Z)) (a : EvaluatedArgument)
  : bool :=
  match get_field (get_evaluation a) f with Ok o => py_in o vs | Err _ => false end.

(** The entries of [c] restricted to the arguments satisfying [p], in
    order, keys left without any argument dropped. *)
Definition keep_entries (p : EvaluatedArgument -> bool) (c : Corpus) : Corpus :=
  flat_map (fun '(k, g) =>
              match List.filter p g with [] => [] | a :: t => [(k, a :: t)] end) c.

(** A group without any argument. *)
Definition empty_group (e : Z * list EvaluatedArgument) : bool :=
  match snd e with [] => true | _ :: _ => false end.

(** [row["Tipo elemento"] == "Argumento"] *)
Definition is_argument_row (row : Row) : bool :=
  String.eqb (tipo_elemento row) "Argumento"%string.

(** The argument the loops build from an argument row, carrying the
    proposal id of the row, or the error its parsing raises. *)
Definition row_argument (row : Row) : result EvaluatedArgument :=
  let* pid := int_ (id_propuesta row) in
  let* e := row_evaluation row in
  let* ida := int_ (id_elemento row) in
  Ok (mkEvaluatedArgument pid ida (valor row) e).

(** The state of the loop of [create_complete_corpus] after the argument
    rows [pre]: every one of them but the last committed under its
    proposal (proposal [-1] never), the last one alone in [data]. *)
Definition complete_inv (st : CompleteState) (pre : list EvaluatedArgument) : Prop :=
  (forall k, k <> (-1)%Z -> corpus_lookup k (cc_corpus st) =
     entry_after None (List.filter (fun a => Z.eqb (id_proposal a) k) (removelast pre))) /\
  corpus_lookup (-1)%Z (cc_corpus st) = None /\
  match last pre with
  | None => cc_proposal_id st = (-1)%Z
  | Some cur => cc_proposal_id st = id_proposal cur /\ cc_data st = Some [cur]
  end.

(** Whether a string holds a given character. *)
Fixpoint has_char (ch : ascii) (s : string) : bool :=
  match s with
  | EmptyString => false
  | String c s' => Ascii.eqb c ch || has_char ch s'
  end.

(** A text with neither a tab nor a newline. *)
Definition clean_text (s : string) : bool :=
  negb (has_char tab_char s) && negb (has_char nl_char s).

(** [s.split(sep)] *)
Fixpoint split_on (sep : ascii) (s : string) : list string :=
  match s with
  | EmptyString => [EmptyString]
  | String c s' =>
      if Ascii.eqb c sep then EmptyString :: split_on sep s'
      else match split_on sep s' with
           | [] => [String c EmptyString]
           | x :: xs => String c x :: xs
           end
  end.

(** The arguments of a corpus with their keys, in the order of the dict. *)
Definition corpus_entries (c : Corpus) : list (Z * EvaluatedArgument) :=
  flat_map (fun '(k, g) => map (fun a => (k, a)) g) c.

(** The value of a field of an evaluation. *)
Definition field_value (e : Evaluation) (f : string) : option Z :=
  match getattr e f with Ok (PInt z) => Some z | _ => None end.

(** Reading a value column back: ["None"] or an int. *)
Definition decode_value (s : string) : option (option Z) :=
  if String.eqb s "None"%string then Some None else option_map Some (py_int s).

Fixpoint options_all {A : Type} (l : list (option A)) : option (list A) :=
  match l with
  | [] => Some []
  | Some x :: rest => option_map (cons x) (options_all rest)
  | None :: _ => None
  end.

(** Reading a line of the file back, from its columns: proposal id,
    argument id, text and field values. *)
Definition decode_line (cols : list string) : option (Z * Z * string * list (option Z)) :=
  match cols with
  | p :: i :: t :: vs =>
      match py_int p, py_int i, options_all (map decode_value vs) with
      | Some p', Some i', Some vs' => Some (p', i', t, vs')
      | _, _, _ => None
      end
  | _ => None
  end.

(** The line of the file for one argument of a proposal, and a list of
    lines each ended by a newline. *)
Definition line_of (fields : list string) (ka : Z * EvaluatedArgument) : string :=
  let '(k, a) := ka in
  (str_Z k ++ tab ++ str_Z (id_argument a) ++ tab ++ argument a ++ tab ++
   String.concat tab (map (fun f => str_opt (field_value (evaluation a) f)) fields))%string.

Definition lines_text (ls : list string) : string :=
  fold_right (fun l acc => l ++ nl ++ acc)%string EmptyString ls.

(** ** Concrete inputs *)

Definition ev_pos : Evaluation :=
  mkEvaluation 1 (Some 1%Z) (Some 1%Z) (Some 1%Z) (Some 1%Z) (Some 1%Z) (Some 1%Z) (Some 1%Z).
Definition ev_neg : Evaluation :=
  mkEvaluation 1 (Some 0%Z) (Some 1%Z) None None None None None.
Definition ev_noclaim : Evaluation :=
  mkEvaluation 0 None None None None None None None.

Definition ex_arg (k i : Z) (e : Evaluation) : EvaluatedArgument :=
  mkEvaluatedArgument k i "" e.

(** Proposal 1 with five positives and two negatives. *)
Definition ex_group_5_2 : list EvaluatedArgument :=
  [ex_arg 1 1 ev_pos; ex_arg 1 2 ev_pos; ex_arg 1 3 ev_pos; ex_arg 1 4 ev_pos;
   ex_arg 1 5 ev_pos; ex_arg 1 6 ev_neg; ex_arg 1 7 ev_neg].
Definition ex_corpus_5_2 : Corpus := [(1%Z, ex_group_5_2); (2%Z, [ex_arg 2 8 ev_neg])].

(** Proposal 1 holding one argument whose claim is 0. *)
Definition ex_corpus_noclaim : Corpus := [(1%Z, [ex_arg 1 1 ev_noclaim])].

Definition ex_row (pid id cl cp asp : string) : Row :=
  mkRow "Argumento" pid id "" cl cp asp "1" "1" "1" "1" "1".

(** Two argument rows of proposal 1, a positive and a negative one. *)
Definition ex_rows_one_group : list Row :=
  [ex_row "1" "1" "1" "1" "1"; ex_row "1" "2" "1" "0" "1"].

(** Proposal 1 with five positive and two negative rows, then one row of
    proposal 2. *)
Definition ex_rows_5_2 : list Row :=
  [ex_row "1" "1" "1" "1" "1"; ex_row "1" "2" "1" "1" "1"; ex_row "1" "3" "1" "1" "1";
   ex_row "1" "4" "1" "1" "1"; ex_row "1" "5" "1" "1" "1"; ex_row "1" "6" "1" "0" "1";
   ex_row "1" "7" "1" "0" "1"; ex_row "2" "8" "1" "0" "1"].

(* ================================================================== *)
(** * Properties *)

(** ** The dict operations *)

Lemma corpus_lookup_set k k' v c :
  corpus_lookup k' (corpus_set k v c) =
  if Z.eqb k' k then Some v else corpus_lookup k' c.
Proof.
  induction c as [|[k0 v0] c IH]; simpl.
  - reflexivity.
  - destruct (Z.eqb k k0) eqn:E; simpl.
    + apply Z.eqb_eq in E; subst k0. by destruct (Z.eqb k' k).
    + rewrite IH. destruct (Z.eqb k' k0) eqn:E1, (Z.eqb k' k) eqn:E2; try reflexivity.
      apply Z.eqb_eq in E1, E2; subst. rewrite Z.eqb_refl in E. discriminate.
Qed.

Lemma corpus_lookup_absent k c :
  existsb (Z.eqb k) (corpus_keys c) = false -> corpus_lookup k c = None.
Proof.
  induction c as [|[k0 v0] c IH]; simpl; [done|].
  intros H. apply orb_false_iff in H as [H1 H2]. rewrite H1. auto.
Qed.

Lemma corpus_wf_cons k g rest :
  corpus_wf ((k, g) :: rest) ->
  corpus_wf rest /\ corpus_lookup k rest = None /\ Forall (fun a => id_proposal a = k) g.
Proof.
  unfold corpus_wf, corpus_wfb. simpl.
  intros H. apply andb_prop in H as [Hnd Hall].
  apply andb_prop in Hnd as [Hnot Hnd]. apply andb_prop in Hall as [Hg Hall].
  split; [by rewrite Hnd, Hall|]. split.
  - apply corpus_lookup_absent. by apply negb_true_iff.
  - apply Forall_forall. intros a Ha.
    apply forallb_forall with (x := a) in Hg; [|by apply list_elem_of_In].
    by apply Z.eqb_eq.
Qed.

(** Looking a key up in the result of appending under it arguments that
    carry that key as their proposal id. *)
Lemma append_all_lookup_same c k args :
  Forall (fun a => id_proposal a = k) args ->
  corpus_lookup k (append_all_arguments c k args) = entry_after (corpus_lookup k c) args.
Proof.
  revert c. induction args as [|a args IH]; intros c Hf; simpl.
  - destruct (corpus_lookup k c); simpl; [by rewrite app_nil_r|done].
  - inversion Hf as [|? ? Ha Hrest]; subst.
    rewrite IH by done. unfold append_argument.
    destruct (corpus_lookup (id_proposal a) c) as [l|] eqn:E;
      rewrite corpus_lookup_set, Z.eqb_refl; simpl; [by rewrite <- app_assoc|done].
Qed.

Lemma append_all_lookup_other c k k' args :
  Forall (fun a => id_proposal a = k) args -> k' <> k ->
  corpus_lookup k' (append_all_arguments c k args) = corpus_lookup k' c.
Proof.
  revert c. induction args as [|a args IH]; intros c Hf Hne; simpl; [done|].
  inversion Hf as [|? ? Ha Hrest]; subst.
  rewrite IH by done. unfold append_argument.
  assert (Z.eqb k' (id_proposal a) = false) as E by (apply Z.eqb_neq; done).
  destruct (corpus_lookup (id_proposal a) c);
    rewrite corpus_lookup_set, E; reflexivity.
Qed.

Lemma entry_after_length o l :
  length (default [] (entry_after o l)) = (length (default [] o) + length l)%nat.
Proof. destruct o, l; simpl; rewrite ?length_app; simpl; lia. Qed.

(** Every entry [append_argument] writes holds at least the argument. *)
Lemma append_all_no_empty c pid args :
  (forall k, corpus_lookup k c <> Some []) ->
  forall k, corpus_lookup k (append_all_arguments c pid args) <> Some [].
Proof.
  revert c. induction args as [|a args IH]; intros c Hc; simpl; [done|].
  apply IH. intros k. unfold append_argument.
  destruct (corpus_lookup pid c) as [l|];
    rewrite corpus_lookup_set; destruct (Z.eqb k _); try apply Hc;
    intros H; injection H as H; apply (f_equal length) in H;
    rewrite ?length_app in H; simpl in H; lia.
Qed.

(** A property of all arguments of a corpus survives appending arguments
    that have it. *)
Lemma append_all_forall (P : EvaluatedArgument -> Prop) c pid args :
  (forall k l, corpus_lookup k c = Some l -> Forall P l) -> Forall P args ->
  forall k l, corpus_lookup k (append_all_arguments c pid args) = Some l -> Forall P l.
Proof.
  revert c. induction args as [|a args IH]; intros c Hc Hargs; simpl; [done|].
  inversion Hargs as [|? ? Ha Hrest]; subst.
  apply IH; [|done]. intros k l. unfold append_argument.
  destruct (corpus_lookup pid c) as [l0|] eqn:E;
    rewrite corpus_lookup_set; destruct (Z.eqb k _); intros H; try (by eauto).
  - injection H as <-. apply Forall_app. split; [by eauto|by constructor].
  - injection H as <-. by constructor.
Qed.

(** ** Filtering *)

Lemma filter_matching_forall (P : EvaluatedArgument -> Prop) f vs l m :
  filter_matching f vs l = Ok m -> Forall P l -> Forall P m.
Proof.
  revert m. induction l as [|a l IH]; intros m H Hl; simpl in H.
  - by injection H as <-.
  - inversion Hl; subst.
    destruct (get_field (get_evaluation a) f) as [o|]; simpl in H; [|discriminate].
    destruct (filter_matching f vs l) as [m'|]; simpl in H; [|discriminate].
    injection H as <-. destruct (py_in o vs); [constructor|]; eauto.
Qed.

Lemma filter_matching_sound f vs l m :
  filter_matching f vs l = Ok m ->
  Forall (fun a => exists o, get_field (get_evaluation a) f = Ok o /\ py_in o vs = true) m.
Proof.
  revert m. induction l as [|a l IH]; intros m H; simpl in H.
  - by injection H as <-.
  - destruct (get_field (get_evaluation a) f) as [o|] eqn:Eo; simpl in H; [|discriminate].
    destruct (filter_matching f vs l) as [m'|]; simpl in H; [|discriminate].
    injection H as <-. destruct (py_in o vs) eqn:Ein; [constructor|]; eauto.
Qed.

Lemma filter_matching_claim_premise l :
  filter_matching "claim_premise" [Some 1%Z] l = Ok (List.filter is_argument l).
Proof.
  induction l as [|a l IH]; simpl; [done|].
  rewrite IH. simpl. unfold is_argument, is_non_argument, get_field, getattr, get_evaluation. simpl.
  destruct (claim_premise (evaluation a)) as [z|]; simpl; [|done].
  by destruct z as [|[p|p|]|p].
Qed.

(** The loop of [filter_by], key by key, on a corpus as the module builds it. *)
Lemma filter_by_loop_at f vs entries acc res k :
  corpus_wf entries ->
  filter_by_loop f vs entries acc = Ok res ->
  (corpus_lookup k entries = None -> corpus_lookup k res = corpus_lookup k acc) /\
  (forall g, corpus_lookup k entries = Some g ->
     exists matched, filter_matching f vs g = Ok matched /\
       corpus_lookup k res = entry_after (corpus_lookup k acc) matched).
Proof.
  revert acc. induction entries as [|[k' g'] rest IH]; intros acc Hwf Hrun; simpl in *.
  - injection Hrun as <-. split; [done|discriminate].
  - apply corpus_wf_cons in Hwf as (Hwf & Habs & Hids).
    destruct (filter_matching f vs g') as [m|] eqn:Em; simpl in Hrun; [|discriminate].
    assert (Hm : Forall (fun a => id_proposal a = k') m)
      by (eapply filter_matching_forall; eauto).
    destruct (IH _ Hwf Hrun) as [IH1 IH2].
    destruct (Z.eqb k k') eqn:Ek.
    + apply Z.eqb_eq in Ek; subst k'. split; [discriminate|].
      intros g Hg. injection Hg as <-. exists m. split; [done|].
      rewrite IH1 by done. by apply append_all_lookup_same.
    + apply Z.eqb_neq in Ek.
      rewrite <- (append_all_lookup_other acc k' k m) by done.
      split; [exact IH1|exact IH2].
Qed.

Lemma filter_by_loop_no_empty f vs entries acc res :
  (forall k, corpus_lookup k acc <> Some []) ->
  filter_by_loop f vs entries acc = Ok res ->
  forall k, corpus_lookup k res <> Some [].
Proof.
  revert acc. induction entries as [|[k' g'] rest IH]; intros acc Hacc Hrun; simpl in *.
  - by injection Hrun as <-.
  - destruct (filter_matching f vs g') as [m|]; simpl in Hrun; [|discriminate].
    eapply IH; [|exact Hrun]. by apply append_all_no_empty.
Qed.

Lemma filter_by_loop_forall f vs entries acc res :
  (forall k l, corpus_lookup k acc = Some l ->
     Forall (fun a => exists o, get_field (get_evaluation a) f = Ok o /\ py_in o vs = true) l) ->
  filter_by_loop f vs entries acc = Ok res ->
  forall k l, corpus_lookup k res = Some l ->
    Forall (fun a => exists o, get_field (get_evaluation a) f = Ok o /\ py_in o vs = true) l.
Proof.
  revert acc. induction entries as [|[k' g'] rest IH]; intros acc Hacc Hrun; simpl in *.
  - by injection Hrun as <-.
  - destruct (filter_matching f vs g') as [m|] eqn:Em; simpl in Hrun; [|discriminate].
    eapply IH; [|exact Hrun]. apply append_all_forall; [done|].
    by eapply filter_matching_sound.
Qed.

Section WithSampler.

Context {Rnd : Type}
  (sample : Rnd -> list EvaluatedArgument -> nat -> list EvaluatedArgument * Rnd)
  (Hsample : sample_ok sample).

Lemma take_n_length r data n :
  length (fst (take_n_random_elements sample r data n)) = Nat.min n (length data).
Proof.
  unfold take_n_random_elements.
  destruct (Nat.leb_spec (length data) n) as [Hle|Hlt]; simpl; [lia|].
  rewrite (proj1 (Hsample r data n Hlt)). lia.
Qed.

Lemma take_n_all r data n :
  (length data <= n)%nat -> take_n_random_elements sample r data n = (data, r).
Proof.
  intros H. unfold take_n_random_elements.
  destruct (Nat.leb_spec (length data) n); [done|lia].
Qed.

Lemma take_n_forall (P : EvaluatedArgument -> Prop) r data n :
  Forall P data -> Forall P (fst (take_n_random_elements sample r data n)).
Proof.
  intros H. unfold take_n_random_elements.
  destruct (Nat.leb_spec (length data) n) as [Hle|Hlt]; simpl; [done|].
  destruct (Hsample r data n Hlt) as [_ Hsub].
  apply Forall_forall. intros a Ha.
  rewrite Forall_forall in H. apply H.
  eapply elem_of_submseteq; [exact Ha|exact Hsub].
Qed.

(** The balancing step of the one-pass functions commits [2 * min(p, q)]
    arguments under the group's key. *)
Lemma balance_and_commit_len r k ev nev c :
  Forall (fun a => id_proposal a = k) ev ->
  Forall (fun a => id_proposal a = k) nev ->
  len_at k (fst (balance_and_commit sample r k ev nev c)) =
  (len_at k c + 2 * Nat.min (length ev) (length nev))%nat.
Proof.
  intros Hev Hnev. unfold balance_and_commit, len_at.
  destruct (Nat.ltb_spec (length ev) (length nev)) as [H1|H1].
  - pose proof (take_n_length r nev (length ev)) as L.
    pose proof (take_n_forall _ r nev (length ev) Hnev) as F.
    destruct (take_n_random_elements sample r nev (length ev)) as [nev' r1]; simpl in *.
    rewrite !append_all_lookup_same by done. rewrite !entry_after_length. lia.
  - destruct (Nat.ltb_spec (length nev) (length ev)) as [H2|H2].
    + pose proof (take_n_length r ev (length nev)) as L.
      pose proof (take_n_forall _ r ev (length nev) Hev) as F.
      destruct (take_n_random_elements sample r ev (length nev)) as [ev' r1]; simpl in *.
      rewrite !append_all_lookup_same by done. rewrite !entry_after_length. lia.
    + simpl. rewrite !append_all_lookup_same by done. rewrite !entry_after_length. lia.
Qed.

(** The loop of [filter_by_completed], key by key, on a corpus as the
    module builds it. *)
Lemma filter_by_completed_loop_at f vs entries acc r res r' k :
  corpus_wf entries ->
  filter_by_completed_loop sample f vs entries acc r = Ok (res, r') ->
  (corpus_lookup k entries = None -> corpus_lookup k res = corpus_lookup k acc) /\
  (forall g, corpus_lookup k entries = Some g ->
     exists r0 matched, filter_matching f vs g = Ok matched /\
       corpus_lookup k res =
       entry_after (entry_after (corpus_lookup k acc) matched)
         (fst (take_n_random_elements sample r0 (List.filter is_non_argument g)
                 (length matched)))).
Proof.
  revert acc r. induction entries as [|[k' g'] rest IH]; intros acc r Hwf Hrun; simpl in *.
  - injection Hrun as <- _. split; [done|discriminate].
  - apply corpus_wf_cons in Hwf as (Hwf & Habs & Hids).
    destruct (filter_matching f vs g') as [m|] eqn:Em; simpl in Hrun; [|discriminate].
    assert (Hm : Forall (fun a => id_proposal a = k') m)
      by (eapply filter_matching_forall; eauto).
    assert (Hn : Forall (fun a => id_proposal a = k') (List.filter is_non_argument g')).
    { apply Forall_forall. intros a Ha. apply list_elem_of_In, filter_In in Ha.
      rewrite Forall_forall in Hids. apply Hids, list_elem_of_In, Ha. }
    pose proof (take_n_forall _ r _ (length m) Hn) as Hs.
    destruct (take_n_random_elements sample r (List.filter is_non_argument g') (length m))
      as [sampled r1] eqn:Et; simpl in Hs.
    destruct (IH _ _ Hwf Hrun) as [IH1 IH2].
    destruct (Z.eqb k k') eqn:Ek.
    + apply Z.eqb_eq in Ek; subst k'. split; [discriminate|].
      intros g Hg. injection Hg as <-. exists r, m. split; [done|].
      rewrite Et. simpl. rewrite IH1 by done.
      rewrite append_all_lookup_same by done. by rewrite append_all_lookup_same.
    + apply Z.eqb_neq in Ek.
      rewrite <- (append_all_lookup_other acc k' k m) by done.
      rewrite <- (append_all_lookup_other (append_all_arguments acc k' m) k' k sampled) by done.
      split; [exact IH1|exact IH2].
Qed.

Lemma filter_by_completed_loop_no_empty f vs entries acc r res r' :
  (forall k, corpus_lookup k acc <> Some []) ->
  filter_by_completed_loop sample f vs entries acc r = Ok (res, r') ->
  forall k, corpus_lookup k res <> Some [].
Proof.
  revert acc r. induction entries as [|[k' g'] rest IH]; intros acc r Hacc Hrun; simpl in *.
  - by injection Hrun as <- _.
  - destruct (filter_matching f vs g') as [m|]; simpl in Hrun; [|discriminate].
    destruct (take_n_random_elements sample r _ _) as [sampled r1].
    eapply IH; [|exact Hrun]. by do 2 apply append_all_no_empty.
Qed.

(** [filter_by_completed("claim_premise", 1)] never raises. *)
Lemma filter_by_completed_claim_premise_ok c r :
  exists res r', filter_by_completed sample r c "claim_premise" (VOne (Some 1%Z)) = Ok (res, r').
Proof.
  unfold filter_by_completed. simpl. generalize empty_corpus as acc.
  revert r. induction c as [|[k g] c IH]; intros r acc; simpl; [eauto|].
  rewrite filter_matching_claim_premise. simpl.
  destruct (take_n_random_elements sample r _ _) as [sampled r1]. apply IH.
Qed.

End WithSampler.

Lemma sample_first_ok : sample_ok sample_first.
Proof.
  intros u data n H. unfold sample_first. simpl. split.
  - apply length_take_le. lia.
  - apply submseteq_take.
Qed.

Lemma opt_step_inv {Rnd : Type} sample bucket_of (st st' : @OptState Rnd) row :
  opt_bucket_inv st -> opt_step sample bucket_of st row = Ok st' -> opt_bucket_inv st'.
Proof.
  intros Hinv H. unfold opt_step in H.
  destruct (negb (String.eqb (tipo_elemento row) "Argumento")); [by injection H as <-|].
  destruct (int_ (id_propuesta row)) as [pid|]; simpl in H; [|discriminate].
  assert (Hst1 : forall st1 : @OptState Rnd,
            (if negb (Z.eqb pid (proposal_id st)) then
               bind (if negb (Z.eqb (proposal_id st) (-1)) then
                       match buckets st with
                       | Some (ev, nev) =>
                           Ok (balance_and_commit sample (rnd st) (proposal_id st) ev nev (corpus st))
                       | None => Err UnboundLocalError
                       end
                     else Ok (corpus st, rnd st))
                    (fun cr => Ok (mkOptState pid (Some ([], [])) (fst cr) (snd cr)))
             else Ok st) = Ok st1 -> opt_bucket_inv st1).
  { intros st1 E. destruct (negb (Z.eqb pid (proposal_id st))).
    - destruct (if negb _ then _ else _) as [cr|]; simpl in E; [|discriminate].
      injection E as <-. unfold opt_bucket_inv. simpl. split; constructor.
    - by injection E as <-. }
  destruct (if negb (Z.eqb pid (proposal_id st)) then _ else _) as [st1|] eqn:E1;
    simpl in H; [|discriminate].
  specialize (Hst1 st1 eq_refl).
  destruct (row_evaluation row) as [e|]; simpl in H; [|discriminate].
  destruct (int_ (id_elemento row)) as [ida|]; simpl in H; [|discriminate].
  destruct (bucket_of row) as [b|]; [|by injection H as <-].
  unfold opt_bucket_inv in Hst1.
  destruct (buckets st1) as [[ev nev]|]; [|discriminate].
  injection H as <-. unfold opt_bucket_inv. simpl.
  destruct Hst1 as [Hev Hnev].
  destruct b; simpl; split; try done; apply Forall_app; split; try done; by constructor.
Qed.

(** When a row of another proposal arrives, the one-pass loop commits the
    active group: [2 * min(p, q)] arguments under its key. *)
Lemma opt_step_commit {Rnd : Type} sample (Hs : sample_ok sample) bucket_of
    (st st' : @OptState Rnd) row ev nev pid :
  opt_bucket_inv st -> buckets st = Some (ev, nev) -> proposal_id st <> (-1)%Z ->
  tipo_elemento row = "Argumento"%string -> int_ (id_propuesta row) = Ok pid ->
  pid <> proposal_id st ->
  opt_step sample bucket_of st row = Ok st' ->
  len_at (proposal_id st) (corpus st') =
  (len_at (proposal_id st) (corpus st) + 2 * Nat.min (length ev) (length nev))%nat.
Proof.
  intros Hinv Hb Hn1 Ht Hpid Hne H. unfold opt_step in H.
  rewrite Ht in H. simpl in H. rewrite Hpid in H. simpl in H.
  rewrite (proj2 (Z.eqb_neq pid (proposal_id st)) Hne) in H.
  rewrite (proj2 (Z.eqb_neq (proposal_id st) (-1)) Hn1) in H.
  rewrite Hb in H. simpl in H.
  unfold opt_bucket_inv in Hinv. rewrite Hb in Hinv. destruct Hinv as [Hev Hnev].
  rewrite <- (balance_and_commit_len sample Hs (rnd st) (proposal_id st) ev nev (corpus st))
    by done.
  destruct (row_evaluation row) as [e|]; simpl in H; [|discriminate].
  destruct (int_ (id_elemento row)) as [ida|]; simpl in H; [|discriminate].
  destruct (bucket_of row) as [b|]; [|by injection H as <-].
  injection H as <-. reflexivity.
Qed.

(** Every state the one-pass loop reaches keeps, in its buckets, only
    arguments of the active proposal. *)
Lemma opt_run_inv {Rnd : Type} sample bucket_of (st st' : @OptState Rnd) rows :
  opt_bucket_inv st -> opt_run sample bucket_of st rows = Ok st' -> opt_bucket_inv st'.
Proof.
  revert st. induction rows as [|row rows IH]; intros st Hinv H; simpl in H.
  - by injection H as <-.
  - destruct (opt_step sample bucket_of st row) as [st1|] eqn:E; simpl in H; [|discriminate].
    eapply IH; [|exact H]. eapply opt_step_inv; eauto.
Qed.

(** ** Every corpus the module builds is well formed *)

Lemma corpus_keys_set k v c :
  corpus_keys (corpus_set k v c) =
  if existsb (Z.eqb k) (corpus_keys c) then corpus_keys c else corpus_keys c ++ [k].
Proof.
  induction c as [|[k0 v0] c IH]; simpl; [done|].
  destruct (Z.eqb k k0) eqn:E; simpl; [done|].
  rewrite IH. by destruct (existsb (Z.eqb k) (corpus_keys c)).
Qed.

Lemma nodupb_snoc l k :
  nodupb l = true -> existsb (Z.eqb k) l = false -> nodupb (l ++ [k]) = true.
Proof.
  induction l as [|x l IH]; simpl; intros Hnd Hex; [done|].
  apply andb_prop in Hnd as [Hx Hnd]. apply orb_false_iff in Hex as [Hkx Hex].
  rewrite IH by done. rewrite existsb_app. simpl.
  apply negb_true_iff in Hx. rewrite Hx. simpl.
  rewrite Z.eqb_sym, Hkx. done.
Qed.

Lemma forallb_ids_set k v c :
  forallb (fun '(k', args) => forallb (fun a => Z.eqb (id_proposal a) k') args) c = true ->
  forallb (fun a => Z.eqb (id_proposal a) k) v = true ->
  forallb (fun '(k', args) => forallb (fun a => Z.eqb (id_proposal a) k') args)
    (corpus_set k v c) = true.
Proof.
  induction c as [|[k0 v0] c IH]; simpl; intros Hc Hv; [by rewrite Hv|].
  apply andb_prop in Hc as [H0 Hc].
  destruct (Z.eqb k k0) eqn:E; simpl.
  - apply Z.eqb_eq in E. subst k0. by rewrite Hv, Hc.
  - rewrite H0. simpl. by apply IH.
Qed.

Lemma forallb_ids_iff k (v : list EvaluatedArgument) :
  forallb (fun a => Z.eqb (id_proposal a) k) v = true <-> Forall (fun a => id_proposal a = k) v.
Proof.
  rewrite forallb_forall, Forall_forall. split; intros H a Ha.
  - apply Z.eqb_eq, H, list_elem_of_In, Ha.
  - apply Z.eqb_eq, H, list_elem_of_In, Ha.
Qed.

Lemma corpus_set_wf k v c :
  corpus_wf c -> Forall (fun a => id_proposal a = k) v -> corpus_wf (corpus_set k v c).
Proof.
  unfold corpus_wf, corpus_wfb. intros H Hv.
  apply andb_prop in H as [Hnd Hall]. apply andb_true_intro. split.
  - rewrite corpus_keys_set. destruct (existsb (Z.eqb k) (corpus_keys c)) eqn:E; [done|].
    by apply nodupb_snoc.
  - apply forallb_ids_set; [done|]. by apply forallb_ids_iff.
Qed.

Lemma corpus_wf_lookup c k l :
  corpus_wf c -> corpus_lookup k c = Some l -> Forall (fun a => id_proposal a = k) l.
Proof.
  induction c as [|[k0 v0] c IH]; simpl; intros Hwf Hl; [discriminate|].
  apply corpus_wf_cons in Hwf as (Hwf & _ & Hids).
  destruct (Z.eqb k k0) eqn:E; [|by apply IH].
  apply Z.eqb_eq in E. subst k0. by injection Hl as <-.
Qed.

Lemma append_all_wf c pid args :
  corpus_wf c -> Forall (fun a => id_proposal a = pid) args ->
  corpus_wf (append_all_arguments c pid args).
Proof.
  revert c. induction args as [|a args IH]; intros c Hwf Hargs; simpl; [done|].
  inversion Hargs as [|? ? Ha Hrest]; subst.
  apply IH; [|done]. unfold append_argument.
  destruct (corpus_lookup (id_proposal a) c) as [l|] eqn:E; apply corpus_set_wf; try done.
  - apply Forall_app. split; [by eapply corpus_wf_lookup|by constructor].
  - by constructor.
Qed.

Lemma complete_step_wf st st1 row :
  corpus_wf (cc_corpus st) ->
  (forall d, cc_data st = Some d -> Forall (fun a => id_proposal a = cc_proposal_id st) d) ->
  complete_step st row = Ok st1 ->
  corpus_wf (cc_corpus st1) /\
  (forall d, cc_data st1 = Some d -> Forall (fun a => id_proposal a = cc_proposal_id st1) d).
Proof.
  intros Hc Hd E. unfold complete_step in E.
  destruct (negb (String.eqb (tipo_elemento row) "Argumento")); [by injection E as <-|].
  destruct (if negb (py_eq _ _) then _ else _) as [st2|] eqn:E2; simpl in E; [|discriminate].
  assert (H2 : corpus_wf (cc_corpus st2) /\
    (forall d, cc_data st2 = Some d -> Forall (fun a => id_proposal a = cc_proposal_id st2) d)).
  { destruct (negb (py_eq _ _)); [|by injection E2 as <-].
    destruct (if negb (Z.eqb (cc_proposal_id st) (-1)) then _ else _) as [c1|] eqn:E1;
      simpl in E2; [|discriminate].
    destruct (int_ (id_propuesta row)) as [pid|]; simpl in E2; [|discriminate].
    injection E2 as <-. simpl. split.
    - destruct (negb (Z.eqb (cc_proposal_id st) (-1))).
      + destruct (cc_data st) as [d|] eqn:Ed; [|discriminate].
        injection E1 as <-. apply append_all_wf; auto.
      + by injection E1 as <-.
    - intros d Hd'. injection Hd' as <-. constructor. }
  destruct H2 as [Hc2 Hd2].
  destruct (row_evaluation row) as [e|]; simpl in E; [|discriminate].
  destruct (int_ (id_elemento row)) as [ida|]; simpl in E; [|discriminate].
  destruct (cc_data st2) as [d|] eqn:Ed; [|discriminate].
  injection E as <-. simpl. split; [done|].
  intros d' Hd'. injection Hd' as <-. apply Forall_app. split; [auto|by constructor].
Qed.

Lemma create_complete_corpus_wf rows c :
  create_complete_corpus rows = Ok c -> corpus_wf c.
Proof.
  unfold create_complete_corpus.
  assert (Hgen : forall st st',
    corpus_wf (cc_corpus st) ->
    (forall d, cc_data st = Some d -> Forall (fun a => id_proposal a = cc_proposal_id st) d) ->
    complete_run st rows = Ok st' -> corpus_wf (cc_corpus st')).
  { induction rows as [|row rows IH]; intros st st' Hc Hd H; simpl in H.
    - by injection H as <-.
    - destruct (complete_step st row) as [st1|] eqn:E; simpl in H; [|discriminate].
      destruct (complete_step_wf st st1 row Hc Hd E) as [Hc1 Hd1].
      exact (IH st1 st' Hc1 Hd1 H). }
  intros H. destruct (complete_run complete_init rows) as [st|] eqn:E; simpl in H;
    [|discriminate].
  injection H as <-. eapply Hgen; [| |exact E]; [done|discriminate].
Qed.

Lemma filter_by_loop_wf f vs entries acc res :
  corpus_wf entries -> corpus_wf acc -> filter_by_loop f vs entries acc = Ok res ->
  corpus_wf res.
Proof.
  revert acc. induction entries as [|[k g] rest IH]; intros acc Hwf Hacc H; simpl in H.
  - by injection H as <-.
  - apply corpus_wf_cons in Hwf as (Hwf & _ & Hids).
    destruct (filter_matching f vs g) as [m|] eqn:Em; simpl in H; [|discriminate].
    eapply IH; [done| |exact H]. apply append_all_wf; [done|].
    by eapply filter_matching_forall.
Qed.

Lemma filter_by_completed_loop_wf {Rnd : Type} sample (Hs : sample_ok sample)
    f vs entries acc (r : Rnd) res r' :
  corpus_wf entries -> corpus_wf acc ->
  filter_by_completed_loop sample f vs entries acc r = Ok (res, r') -> corpus_wf res.
Proof.
  revert acc r. induction entries as [|[k g] rest IH]; intros acc r Hwf Hacc H; simpl in H.
  - by injection H as <- _.
  - apply corpus_wf_cons in Hwf as (Hwf & _ & Hids).
    destruct (filter_matching f vs g) as [m|] eqn:Em; simpl in H; [|discriminate].
    assert (Hn : Forall (fun a => id_proposal a = k) (List.filter is_non_argument g)).
    { apply Forall_forall. intros a Ha. apply list_elem_of_In, filter_In in Ha.
      rewrite Forall_forall in Hids. apply Hids, list_elem_of_In, Ha. }
    pose proof (take_n_forall sample Hs _ r _ (length m) Hn) as Hsm.
    destruct (take_n_random_elements sample r _ _) as [sampled r1]. simpl in Hsm.
    eapply IH; [done| |exact H].
    apply append_all_wf; [|done]. apply append_all_wf; [done|].
    by eapply filter_matching_forall.
Qed.

Lemma balance_and_commit_wf {Rnd : Type} sample (Hs : sample_ok sample) (r : Rnd) k ev nev c :
  corpus_wf c -> Forall (fun a => id_proposal a = k) ev ->
  Forall (fun a => id_proposal a = k) nev ->
  corpus_wf (fst (balance_and_commit sample r k ev nev c)).
Proof.
  intros Hc Hev Hnev. unfold balance_and_commit.
  destruct (Nat.ltb (length ev) (length nev)).
  - pose proof (take_n_forall sample Hs _ r nev (length ev) Hnev) as F.
    destruct (take_n_random_elements sample r nev _). simpl in *.
    by apply append_all_wf; [apply append_all_wf|].
  - destruct (Nat.ltb (length nev) (length ev)).
    + pose proof (take_n_forall sample Hs _ r ev (length nev) Hev) as F.
      destruct (take_n_random_elements sample r ev _). simpl in *.
      by apply append_all_wf; [apply append_all_wf|].
    + simpl. by apply append_all_wf; [apply append_all_wf|].
Qed.

Lemma opt_step_wf {Rnd : Type} sample (Hs : sample_ok sample) bucket_of
    (st st' : @OptState Rnd) row :
  opt_bucket_inv st -> corpus_wf (corpus st) ->
  opt_step sample bucket_of st row = Ok st' -> corpus_wf (corpus st').
Proof.
  intros Hinv Hc H. unfold opt_step in H.
  destruct (negb (String.eqb (tipo_elemento row) "Argumento")); [by injection H as <-|].
  destruct (int_ (id_propuesta row)) as [pid|]; simpl in H; [|discriminate].
  destruct (if negb (Z.eqb pid (proposal_id st)) then _ else _) as [st1|] eqn:E1;
    simpl in H; [|discriminate].
  assert (Hc1 : corpus_wf (corpus st1)).
  { destruct (negb (Z.eqb pid (proposal_id st))); [|by injection E1 as <-].
    destruct (if negb (Z.eqb (proposal_id st) (-1)) then _ else _) as [cr|] eqn:E2;
      simpl in E1; [|discriminate].
    injection E1 as <-. simpl.
    destruct (negb (Z.eqb (proposal_id st) (-1))); [|by injection E2 as <-].
    unfold opt_bucket_inv in Hinv.
    destruct (buckets st) as [[ev nev]|]; [|discriminate].
    injection E2 as <-. destruct Hinv. by apply balance_and_commit_wf. }
  destruct (row_evaluation row) as [e|]; simpl in H; [|discriminate].
  destruct (int_ (id_elemento row)) as [ida|]; simpl in H; [|discriminate].
  destruct (bucket_of row) as [b|]; [|by injection H as <-].
  destruct (buckets st1) as [[ev nev]|]; [|discriminate].
  by injection H as <-.
Qed.

(** The corpora returned by the one-pass functions, by
    [create_complete_corpus] and by both filters are well formed. *)
Lemma classify_opt_wf {Rnd : Type} sample (Hs : sample_ok sample) bucket_of
    (r : Rnd) rows st :
  opt_run sample bucket_of (opt_init r) rows = Ok st -> corpus_wf (corpus st).
Proof.
  assert (Hgen : forall st0, opt_bucket_inv st0 -> corpus_wf (corpus st0) ->
            opt_run sample bucket_of st0 rows = Ok st -> corpus_wf (corpus st)).
  { induction rows as [|row rows IH]; intros st0 Hinv Hc H; simpl in H.
    - by injection H as <-.
    - destruct (opt_step sample bucket_of st0 row) as [st1|] eqn:E; simpl in H;
        [|discriminate].
      eapply IH; [| |exact H].
      + eapply opt_step_inv; eauto.
      + eapply opt_step_wf; eauto. }
  intros H. eapply Hgen; [| |exact H]; done.
Qed.

Lemma filter_by_wf c f values res :
  corpus_wf c -> filter_by c f values = Ok res -> corpus_wf res.
Proof. intros Hwf H. eapply filter_by_loop_wf; [exact Hwf| |exact H]. done. Qed.

Lemma filter_by_completed_wf {Rnd : Type} sample (Hs : sample_ok sample)
    (r : Rnd) c f values res r' :
  corpus_wf c -> filter_by_completed sample r c f values = Ok (res, r') -> corpus_wf res.
Proof.
  intros Hwf H. eapply filter_by_completed_loop_wf; [exact Hs|exact Hwf| |exact H]. done.
Qed.

(* ------------------------------------------------------------------ *)
(** ** The claims *)

Section Claims.

Context {Rnd : Type}
  (sample : Rnd -> list EvaluatedArgument -> nat -> list EvaluatedArgument * Rnd)
  (Hsample : sample_ok sample).

(** C1: for a proposal group with [p] positives and [q] negatives, the
    loop of the one-pass functions ([classify_arguments_or_not_opt],
    [..._with_aspect_opt]), on reaching a row of another proposal, balances
    and commits [2 * min(p, q)] arguments under the proposal (the bucket
    invariant holds in every state the loop reaches, [opt_run_inv]), while
    [filter_by_completed("claim_premise", 1)], the balancing of
    [classify_arguments_or_not], yields [p + min(p, q)] for it; the two
    counts agree exactly when [p <= q]. *)
Theorem one_pass_vs_two_pass_counts (r : Rnd) (k : Z) (c : Corpus)
    (g : list EvaluatedArgument) (Hwf : corpus_wf c) (Hk : corpus_lookup k c = Some g) :
  let p := length (List.filter is_argument g) in
  let q := length (List.filter is_non_argument g) in
  (forall bucket_of (st st' : @OptState Rnd) row ev nev pid,
     opt_bucket_inv st -> buckets st = Some (ev, nev) -> proposal_id st = k ->
     k <> (-1)%Z -> tipo_elemento row = "Argumento"%string ->
     int_ (id_propuesta row) = Ok pid -> pid <> k ->
     length ev = p -> length nev = q ->
     opt_step sample bucket_of st row = Ok st' ->
     len_at k (corpus st') = (len_at k (corpus st) + 2 * Nat.min p q)%nat) /\
  (exists res r',
     filter_by_completed sample r c "claim_premise" (VOne (Some 1%Z)) = Ok (res, r') /\
     len_at k res = (p + Nat.min p q)%nat) /\
  ((2 * Nat.min p q = p + Nat.min p q)%nat <-> (p <= q)%nat) /\
  ((q < p)%nat -> (2 * Nat.min p q <> p + Nat.min p q)%nat).
Proof.
  intros p q. split; [|split; [|split]].
  - intros bucket_of st st' row ev nev pid Hinv Hb Hst Hk1 Ht Hpid Hne Hp Hq Hrun.
    subst k. rewrite <- Hp, <- Hq. eapply opt_step_commit; eauto.
  - destruct (filter_by_completed_claim_premise_ok sample c r) as (res & r' & Hrun).
    exists res, r'. split; [done|].
    destruct (filter_by_completed_loop_at sample Hsample "claim_premise" [Some 1%Z]
                c empty_corpus r res r' k Hwf Hrun) as [_ H2].
    destruct (H2 g Hk) as (r0 & m & Hm & Hres).
    rewrite filter_matching_claim_premise in Hm. injection Hm as <-.
    unfold len_at. rewrite Hres, !entry_after_length, (take_n_length sample Hsample).
    simpl. subst p q. lia.
  - lia.
  - lia.
Qed.

(** C2: on a corpus as the module builds it ([corpus_wf], which
    [create_complete_corpus_wf], [classify_opt_wf], [filter_by_wf] and
    [filter_by_completed_wf] establish), for a proposal with [p]
    arguments whose [claim_premise] is 1 and [q] others,
    [filter_by_completed("claim_premise", 1)] succeeds and keeps
    [p + min(p, q)] arguments for it; when [q <= p] it keeps all of them,
    positives first. *)
Theorem filter_by_completed_claim_premise_count (r : Rnd) (k : Z) (c : Corpus)
    (g : list EvaluatedArgument) (Hwf : corpus_wf c) (Hk : corpus_lookup k c = Some g) :
  let pos := List.filter is_argument g in
  let neg := List.filter is_non_argument g in
  exists res r',
    filter_by_completed sample r c "claim_premise" (VOne (Some 1%Z)) = Ok (res, r') /\
    len_at k res = (length pos + Nat.min (length pos) (length neg))%nat /\
    ((length neg <= length pos)%nat -> corpus_lookup k res = entry_after None (pos ++ neg)).
Proof.
  intros pos neg.
  destruct (filter_by_completed_claim_premise_ok sample c r) as (res & r' & Hrun).
  exists res, r'. split; [done|].
  destruct (filter_by_completed_loop_at sample Hsample "claim_premise" [Some 1%Z]
              c empty_corpus r res r' k Hwf Hrun) as [_ H2].
  destruct (H2 g Hk) as (r0 & m & Hm & Hres).
  rewrite filter_matching_claim_premise in Hm. injection Hm as <-.
  split.
  - unfold len_at. rewrite Hres, !entry_after_length, (take_n_length sample Hsample).
    simpl. subst pos neg. lia.
  - intros Hle. rewrite Hres, (take_n_all sample) by done. simpl.
    fold pos neg. destruct pos as [|a pos']; simpl; [|done].
    destruct neg; simpl in *; [done|lia].
Qed.

(** C7: on a corpus as the module builds it ([corpus_wf]), a proposal none of whose
    arguments matches is absent from the result of [filter_by] and of
    [filter_by_completed]; neither result maps any key to an empty list. *)
Theorem filter_empty_match_absent (r : Rnd) (c : Corpus) (f : string)
    (values : FilterValues) (k : Z) (g : list EvaluatedArgument)
    (Hwf : corpus_wf c) (Hk : corpus_lookup k c = Some g)
    (Hnone : filter_matching f (values_list values) g = Ok []) :
  (forall res, filter_by c f values = Ok res ->
     corpus_lookup k res = None /\ forall k', corpus_lookup k' res <> Some []) /\
  (forall res r', filter_by_completed sample r c f values = Ok (res, r') ->
     corpus_lookup k res = None /\ forall k', corpus_lookup k' res <> Some []).
Proof.
  split.
  - intros res Hrun. split.
    + destruct (filter_by_loop_at f (values_list values) c empty_corpus res k Hwf Hrun)
        as [_ H2].
      destruct (H2 g Hk) as (m & Hm & Hres). rewrite Hnone in Hm.
      injection Hm as <-. by rewrite Hres.
    + eapply filter_by_loop_no_empty; [|exact Hrun]. done.
  - intros res r' Hrun. split.
    + destruct (filter_by_completed_loop_at sample Hsample f (values_list values)
                  c empty_corpus r res r' k Hwf Hrun) as [_ H2].
      destruct (H2 g Hk) as (r0 & m & Hm & Hres). rewrite Hnone in Hm.
      injection Hm as <-. rewrite Hres. simpl.
      pose proof (take_n_length sample Hsample r0 (List.filter is_non_argument g) 0) as L.
      destruct (fst (take_n_random_elements sample r0 _ 0)); [done|simpl in L; lia].
    + eapply filter_by_completed_loop_no_empty; [|exact Hrun]. done.
Qed.

(** C9: [filter_by_completed] on a field other than [claim_premise] can
    return the same argument twice for one proposal: matched by the filter,
    then drawn again as a non-argument. *)
Theorem filter_by_completed_duplicates (r : Rnd) :
  exists c f values res r' k a,
    f <> "claim_premise"%string /\
    filter_by_completed sample r c f values = Ok (res, r') /\
    corpus_lookup k res = Some [a; a].
Proof.
  exists ex_corpus_noclaim, "claim"%string, (VOne (Some 0%Z)),
    [(1%Z, [ex_arg 1 1 ev_noclaim; ex_arg 1 1 ev_noclaim])], r, 1%Z,
    (ex_arg 1 1 ev_noclaim).
  split; [discriminate|]. split; reflexivity.
Qed.

End Claims.

(** C6: every argument kept by [filter_by(f, values)] has its field [f]
    among [values] (a single value standing for a one-element list), and on
    a corpus as the module builds it ([corpus_wf]) the result has no
    proposal id the receiver lacks. *)
Theorem filter_by_sound (c : Corpus) (f : string) (values : FilterValues) (res : Corpus)
    (Hrun : filter_by c f values = Ok res) :
  (forall k l a, corpus_lookup k res = Some l -> In a l ->
     exists o, get_field (get_evaluation a) f = Ok o /\ py_in o (values_list values) = true) /\
  (corpus_wf c -> forall k, corpus_lookup k res <> None -> corpus_lookup k c <> None).
Proof.
  split.
  - intros k l a Hl Ha.
    assert (Hall := filter_by_loop_forall f (values_list values) c empty_corpus res
                      ltac:(done) Hrun k l Hl).
    rewrite Forall_forall in Hall. apply Hall, list_elem_of_In, Ha.
  - intros Hwf k Hres Hc. apply Hres.
    destruct (filter_by_loop_at f (values_list values) c empty_corpus res k Hwf Hrun)
      as [H1 _].
    by rewrite H1.
Qed.

(** C5: an [Evaluation] built from strings leaves [claim_premise] and
    [aspect] at [None] when [claim] is not 1, and the five premise
    dependent fields at [None] when [claim] is 1 but [claim_premise] is
    not. *)
Theorem Evaluation_init_gating (s1 s2 s3 s4 s5 s6 s7 s8 : string) (e : Evaluation)
    (H : Evaluation_init s1 s2 s3 s4 s5 s6 s7 s8 = Ok e) :
  (claim e <> 1%Z -> claim_premise e = None /\ aspect e = None) /\
  (claim e = 1%Z -> claim_premise e <> Some 1%Z ->
     premise_validation e = None /\ coherence e = None /\ consistence e = None /\
     persuasion e = None /\ emotional_ethic e = None).
Proof.
  unfold Evaluation_init in H.
  destruct (int_ s1) as [c|] eqn:E1; simpl in H; [|discriminate].
  destruct (String.eqb s1 "1") eqn:Q1.
  - apply String.eqb_eq in Q1; subst s1. vm_compute in E1. injection E1 as <-.
    destruct (int_ s2) as [cp|] eqn:E2; simpl in H; [|discriminate].
    destruct (int_ s3) as [a|]; simpl in H; [|discriminate].
    destruct (String.eqb s2 "1") eqn:Q2.
    + apply String.eqb_eq in Q2; subst s2. vm_compute in E2. injection E2 as <-.
      destruct (int_ s4); simpl in H; [|discriminate].
      destruct (int_ s5); simpl in H; [|discriminate].
      destruct (int_ s6); simpl in H; [|discriminate].
      destruct (int_ s7); simpl in H; [|discriminate].
      destruct (int_ s8); simpl in H; [|discriminate].
      injection H as <-. simpl. split; [lia|]. intros _ Hcp. by contradiction Hcp.
    + injection H as <-. simpl. split; [lia|]. auto 6.
  - injection H as <-. simpl. auto 6.
Qed.

(** C8, as the code has it: [get_field] is [getattr].  For each of the
    eight field names it returns that field's own value (its int, or
    [None]); for any other name it raises [AttributeError] unless the name
    is another attribute of the object, which it then returns ([None] for
    [__weakref__]). *)
Theorem get_field_behaviour (e : Evaluation) (name : string) :
  (get_field e "claim"%string = Ok (PInt (claim e)) /\
   get_field e "claim_premise"%string = Ok (obj_of_opt (claim_premise e)) /\
   get_field e "aspect"%string = Ok (obj_of_opt (aspect e)) /\
   get_field e "premise_validation"%string = Ok (obj_of_opt (premise_validation e)) /\
   get_field e "coherence"%string = Ok (obj_of_opt (coherence e)) /\
   get_field e "consistence"%string = Ok (obj_of_opt (consistence e)) /\
   get_field e "persuasion"%string = Ok (obj_of_opt (persuasion e)) /\
   get_field e "emotional_ethic"%string = Ok (obj_of_opt (emotional_ethic e))) /\
  get_field e "__weakref__"%string = Ok PNone /\
  (~ In name evaluation_fields -> In name evaluation_other_attrs ->
     name <> "__weakref__"%string -> get_field e name = Ok (PAttr name)) /\
  (~ In name evaluation_fields -> ~ In name evaluation_other_attrs ->
     get_field e name = Err AttributeError).
Proof.
  split; [repeat split; reflexivity|]. split; [reflexivity|]. split.
  - intros Hnf Hin Hw. unfold get_field, getattr.
    assert (Hne : forall s, In s evaluation_fields -> String.eqb name s = false).
    { intros s Hs. apply String.eqb_neq. intros ->. done. }
    rewrite !Hne by (simpl; tauto).
    rewrite (proj2 (String.eqb_neq _ _) Hw).
    assert (existsb (String.eqb name) evaluation_other_attrs = true) as ->; [|done].
    apply existsb_exists. exists name. split; [done|apply String.eqb_refl].
  - intros Hnf Hno. unfold get_field, getattr.
    assert (Hne : forall s, In s evaluation_fields -> String.eqb name s = false).
    { intros s Hs. apply String.eqb_neq. intros ->. done. }
    rewrite !Hne by (simpl; tauto).
    assert (Hw : String.eqb name "__weakref__"%string = false).
    { apply String.eqb_neq. intros ->. apply Hno. simpl. tauto. }
    rewrite Hw.
    assert (existsb (String.eqb name) evaluation_other_attrs = false) as ->; [|done].
    apply not_true_iff_false. intros Hx. apply existsb_exists in Hx as (s & Hs & Hx).
    apply String.eqb_eq in Hx. subst s. done.
Qed.

(** C10: when [proposal_id] is not a key, [_append_argument] creates the
    entry under [argument.id_proposal], so [proposal_id] becomes a key only
    if the two coincide; when it is a key, the argument is appended under
    it.  [append_all_arguments] with arguments of other proposals never
    creates the key [proposal_id]. *)
Theorem append_argument_key (c : Corpus) (pid : Z) (a : EvaluatedArgument) :
  (corpus_lookup pid c = None ->
     corpus_lookup (id_proposal a) (append_argument c pid a) = Some [a] /\
     (id_proposal a <> pid -> corpus_lookup pid (append_argument c pid a) = None)) /\
  (forall l, corpus_lookup pid c = Some l ->
     corpus_lookup pid (append_argument c pid a) = Some (l ++ [a])) /\
  (forall args, corpus_lookup pid c = None ->
     Forall (fun b => id_proposal b <> pid) args ->
     corpus_lookup pid (append_all_arguments c pid args) = None).
Proof.
  split; [|split].
  - intros Hn. unfold append_argument. rewrite Hn.
    rewrite corpus_lookup_set, Z.eqb_refl. split; [done|].
    intros Hne. rewrite corpus_lookup_set.
    by rewrite (proj2 (Z.eqb_neq pid (id_proposal a))) by congruence.
  - intros l Hl. unfold append_argument. rewrite Hl.
    by rewrite corpus_lookup_set, Z.eqb_refl.
  - intros args. revert c. induction args as [|b args IH]; intros c0 Hn Hf; simpl; [done|].
    inversion Hf as [|? ? Hb Hrest]; subst.
    apply IH; [|done]. unfold append_argument. rewrite Hn, corpus_lookup_set.
    by rewrite (proj2 (Z.eqb_neq pid (id_proposal b))) by congruence.
Qed.

(** C3: the one-pass functions never commit the group active at the end
    of the input: on two argument rows of proposal 1 they return an empty
    corpus. *)
Theorem classify_opt_drops_last_group {Rnd : Type}
    (sample : Rnd -> list EvaluatedArgument -> nat -> list EvaluatedArgument * Rnd)
    (r : Rnd) :
  classify_arguments_or_not_opt sample r ex_rows_one_group = Ok (empty_corpus, r) /\
  classify_arguments_or_not_with_aspect_opt sample r ex_rows_one_group = Ok (empty_corpus, r).
Proof. split; reflexivity. Qed.

(** C4: [create_complete_corpus] never commits the argument of the last
    argument row: on one row it returns an empty corpus, on two rows of
    proposal 1 only the first argument. *)
Theorem create_complete_corpus_drops_last_row :
  create_complete_corpus [ex_row "1" "1" "1" "1" "1"] = Ok empty_corpus /\
  create_complete_corpus ex_rows_one_group =
    Ok [(1%Z, [mkEvaluatedArgument 1 1 "" ev_pos])].
Proof. split; reflexivity. Qed.

(** C8 does not hold as stated: [get_field("format_print")] names none of
    the eight fields and still does not fail. *)
Lemma get_field_non_field_no_error :
  ~ In "format_print"%string evaluation_fields /\
  get_field ev_noclaim "format_print" = Ok (PAttr "format_print").
Proof. split; [simpl; intuition discriminate|reflexivity]. Qed.

(* ------------------------------------------------------------------ *)
(** ** The statements at concrete inputs *)

Lemma one_pass_vs_two_pass_counts_witness :
  sample_ok sample_first /\ corpus_wf ex_corpus_5_2 /\
  corpus_lookup 1 ex_corpus_5_2 = Some ex_group_5_2 /\
  (exists res r',
     filter_by_completed sample_first tt ex_corpus_5_2 "claim_premise" (VOne (Some 1%Z))
       = Ok (res, r') /\ len_at 1 res = 7%nat) /\
  (2 * Nat.min 5 2 <> 5 + Nat.min 5 2)%nat.
Proof.
  assert (Hwf : corpus_wf ex_corpus_5_2) by reflexivity.
  destruct (one_pass_vs_two_pass_counts sample_first sample_first_ok tt 1
              ex_corpus_5_2 ex_group_5_2 Hwf eq_refl)
    as (H1 & (res & r' & Hr & Hl) & _ & Hdiff).
  split; [exact sample_first_ok|]. split; [exact Hwf|]. split; [reflexivity|]. split.
  - exists res, r'. split; [exact Hr|]. rewrite Hl. reflexivity.
  - apply Hdiff. vm_compute. lia.
Defined.

Lemma filter_by_completed_claim_premise_count_witness :
  sample_ok sample_first /\ corpus_wf ex_corpus_5_2 /\
  corpus_lookup 1 ex_corpus_5_2 = Some ex_group_5_2 /\
  exists res r',
    filter_by_completed sample_first tt ex_corpus_5_2 "claim_premise" (VOne (Some 1%Z))
      = Ok (res, r') /\ corpus_lookup 1 res = Some ex_group_5_2.
Proof.
  assert (Hwf : corpus_wf ex_corpus_5_2) by reflexivity.
  destruct (filter_by_completed_claim_premise_count sample_first sample_first_ok tt 1
              ex_corpus_5_2 ex_group_5_2 Hwf eq_refl)
    as (res & r' & Hr & _ & Hall).
  split; [exact sample_first_ok|]. split; [exact Hwf|]. split; [reflexivity|].
  exists res, r'. split; [exact Hr|]. rewrite Hall by (vm_compute; lia). reflexivity.
Defined.

Lemma filter_empty_match_absent_witness :
  sample_ok sample_first /\ corpus_wf ex_corpus_5_2 /\
  corpus_lookup 2 ex_corpus_5_2 = Some [ex_arg 2 8 ev_neg] /\
  filter_matching "claim_premise" [Some 1%Z] [ex_arg 2 8 ev_neg] = Ok [] /\
  exists res, filter_by ex_corpus_5_2 "claim_premise" (VOne (Some 1%Z)) = Ok res /\
    corpus_lookup 2 res = None.
Proof.
  assert (Hwf : corpus_wf ex_corpus_5_2) by reflexivity.
  destruct (filter_empty_match_absent sample_first sample_first_ok tt ex_corpus_5_2
              "claim_premise" (VOne (Some 1%Z)) 2 [ex_arg 2 8 ev_neg] Hwf eq_refl eq_refl)
    as [Hby _].
  split; [exact sample_first_ok|]. split; [exact Hwf|].
  split; [reflexivity|]. split; [reflexivity|].
  eexists. split; [reflexivity|]. exact (proj1 (Hby _ eq_refl)).
Defined.

Lemma filter_by_sound_witness :
  exists res, filter_by ex_corpus_5_2 "claim_premise" (VOne (Some 1%Z)) = Ok res /\
    corpus_wf ex_corpus_5_2 /\
    (forall k, corpus_lookup k res <> None -> corpus_lookup k ex_corpus_5_2 <> None).
Proof.
  eexists. split; [reflexivity|]. split; [reflexivity|].
  apply (proj2 (filter_by_sound ex_corpus_5_2 "claim_premise" (VOne (Some 1%Z)) _ eq_refl)).
  reflexivity.
Defined.

Lemma Evaluation_init_gating_witness :
  Evaluation_init "1" "0" "1" "" "" "" "" "" = Ok ev_neg /\
  premise_validation ev_neg = None.
Proof.
  split; [reflexivity|].
  exact (proj1 (proj2 (Evaluation_init_gating "1" "0" "1" "" "" "" "" "" ev_neg eq_refl)
                  eq_refl ltac:(discriminate))).
Defined.

Lemma get_field_behaviour_witness :
  ~ In "foo"%string evaluation_fields /\ ~ In "foo"%string evaluation_other_attrs /\
  get_field ev_pos "foo" = Err AttributeError.
Proof.
  assert (H1 : ~ In "foo"%string evaluation_fields) by (simpl; intuition discriminate).
  assert (H2 : ~ In "foo"%string evaluation_other_attrs) by (simpl; intuition discriminate).
  split; [exact H1|]. split; [exact H2|].
  exact (proj2 (proj2 (proj2 (get_field_behaviour ev_pos "foo"))) H1 H2).
Defined.

Lemma append_argument_key_witness :
  corpus_lookup 1 empty_corpus = None /\
  corpus_lookup 1 (append_argument empty_corpus 1 (ex_arg 2 1 ev_pos)) = None /\
  corpus_lookup 2 (append_argument empty_corpus 1 (ex_arg 2 1 ev_pos)) = Some [ex_arg 2 1 ev_pos].
Proof.
  destruct (proj1 (append_argument_key empty_corpus 1 (ex_arg 2 1 ev_pos)) eq_refl)
    as [Hk Hpid].
  split; [reflexivity|]. split; [apply Hpid; discriminate|exact Hk].
Defined.

(** The example of the spec, through both pipelines: the one-pass function
    keeps 4 arguments of proposal 1, the two-pass function 7. *)
Lemma pipelines_on_5_2 :
  match classify_arguments_or_not_opt sample_first tt ex_rows_5_2 with
  | Ok (c, _) => len_at 1 c = 4%nat
  | Err _ => False
  end /\
  match classify_arguments_or_not sample_first tt ex_rows_5_2 with
  | Ok (c, _) => len_at 1 c = 7%nat
  | Err _ => False
  end.
Proof. split; vm_compute; reflexivity. Qed.

(* ================================================================== *)
(** * Further properties of the module *)

Lemma entry_after_app o l1 l2 :
  entry_after (entry_after o l1) l2 = entry_after o (l1 ++ l2).
Proof. destruct o as [x|]; simpl; [by rewrite <- app_assoc|]. by destruct l1. Qed.

Lemma take_n_sub {Rnd : Type} sample (Hs : sample_ok sample) (r : Rnd) data n :
  fst (take_n_random_elements sample r data n) ⊆+ data.
Proof.
  unfold take_n_random_elements.
  destruct (Nat.leb_spec (length data) n) as [Hle|Hlt]; simpl; [done|].
  apply (Hs r data n Hlt).
Qed.

(** [take_n_random_elements(data, n)] returns [min(n, len(data))]
    elements drawn without replacement from [data], and [data] itself,
    without consulting the random source, when [n >= len(data)]. *)
Theorem take_n_random_elements_spec {Rnd : Type} sample (Hs : sample_ok sample)
    (r : Rnd) (data : list EvaluatedArgument) (n : nat) :
  length (fst (take_n_random_elements sample r data n)) = Nat.min n (length data) /\
  fst (take_n_random_elements sample r data n) ⊆+ data /\
  ((length data <= n)%nat -> take_n_random_elements sample r data n = (data, r)).
Proof.
  split; [by apply take_n_length|]. split; [by apply take_n_sub|].
  by apply take_n_all.
Qed.



(** The gates compare the raw strings with ["1"]: a claim string that
    [int] reads as 1 but is not literally ["1"] (such as [" 1"], ["01"],
    ["+1"] or ["0_1"])
    gives [claim = 1] with every other field [None], whatever the other
    strings are. *)
Theorem Evaluation_init_claim_not_literal (s s2 s3 s4 s5 s6 s7 s8 : string)
    (Hint : py_int s = Some 1%Z) (Hne : s <> "1"%string) :
  Evaluation_init s s2 s3 s4 s5 s6 s7 s8 =
  Ok (mkEvaluation 1 None None None None None None None).
Proof.
  unfold Evaluation_init, int_. rewrite Hint. simpl.
  by rewrite (proj2 (String.eqb_neq s "1") Hne).
Qed.

(** The balancing step of the one-pass functions commits, under the
    group's key and after what is already there, a part of the positives
    followed by a part of the negatives, both of size [min(p, q)] and
    drawn without replacement from their bucket. *)
Theorem balance_and_commit_halves {Rnd : Type} sample (Hs : sample_ok sample)
    (r : Rnd) (k : Z) (ev nev : list EvaluatedArgument) (c : Corpus)
    (Hev : Forall (fun a => id_proposal a = k) ev)
    (Hnev : Forall (fun a => id_proposal a = k) nev) :
  exists ev' nev',
    ev' ⊆+ ev /\ nev' ⊆+ nev /\
    length ev' = Nat.min (length ev) (length nev) /\
    length nev' = Nat.min (length ev) (length nev) /\
    corpus_lookup k (fst (balance_and_commit sample r k ev nev c)) =
    entry_after (corpus_lookup k c) (ev' ++ nev').
Proof.
  unfold balance_and_commit.
  destruct (Nat.ltb_spec (length ev) (length nev)) as [H1|H1].
  - pose proof (take_n_length sample Hs r nev (length ev)) as L.
    pose proof (take_n_forall sample Hs _ r nev (length ev) Hnev) as F.
    pose proof (take_n_sub sample Hs r nev (length ev)) as S.
    destruct (take_n_random_elements sample r nev (length ev)) as [nev' r1]; simpl in *.
    exists ev, nev'. split; [done|]. split; [done|]. split; [lia|]. split; [lia|].
    rewrite !append_all_lookup_same by done. apply entry_after_app.
  - destruct (Nat.ltb_spec (length nev) (length ev)) as [H2|H2].
    + pose proof (take_n_length sample Hs r ev (length nev)) as L.
      pose proof (take_n_forall sample Hs _ r ev (length nev) Hev) as F.
      pose proof (take_n_sub sample Hs r ev (length nev)) as S.
      destruct (take_n_random_elements sample r ev (length nev)) as [ev' r1]; simpl in *.
      exists ev', nev. split; [done|]. split; [done|]. split; [lia|]. split; [lia|].
      rewrite !append_all_lookup_same by done. apply entry_after_app.
    + simpl. exists ev, nev. split; [done|]. split; [done|]. split; [lia|]. split; [lia|].
      rewrite !append_all_lookup_same by done. apply entry_after_app.
Qed.

Lemma take_n_random_elements_spec_witness :
  sample_ok sample_first /\
  length (fst (take_n_random_elements sample_first tt ex_group_5_2 2)) = 2%nat.
Proof.
  split; [exact sample_first_ok|].
  destruct (take_n_random_elements_spec sample_first sample_first_ok tt ex_group_5_2 2)
    as [H _].
  rewrite H. reflexivity.
Defined.

Lemma Evaluation_init_claim_not_literal_witness :
  py_int " 1" = Some 1%Z /\ " 1"%string <> "1"%string /\
  Evaluation_init " 1" "1" "x" "y" "z" "w" "v" "u" =
  Ok (mkEvaluation 1 None None None None None None None).
Proof.
  split; [reflexivity|]. split; [discriminate|].
  apply Evaluation_init_claim_not_literal; [reflexivity|discriminate].
Defined.

Lemma balance_and_commit_halves_witness :
  exists ev' nev',
    ev' ⊆+ [ex_arg 1 1 ev_pos; ex_arg 1 2 ev_pos] /\ nev' ⊆+ [ex_arg 1 3 ev_neg] /\
    length ev' = 1%nat /\ length nev' = 1%nat /\
    corpus_lookup 1 (fst (balance_and_commit sample_first tt 1
                            [ex_arg 1 1 ev_pos; ex_arg 1 2 ev_pos] [ex_arg 1 3 ev_neg]
                            empty_corpus)) =
    entry_after None (ev' ++ nev').
Proof.
  destruct (balance_and_commit_halves sample_first sample_first_ok tt 1
              [ex_arg 1 1 ev_pos; ex_arg 1 2 ev_pos] [ex_arg 1 3 ev_neg] empty_corpus)
    as (ev' & nev' & H1 & H2 & H3 & H4 & H5);
    [repeat constructor | repeat constructor |].
  exists ev', nev'. split; [exact H1|]. split; [exact H2|].
  split; [exact H3|]. split; [exact H4|]. exact H5.
Defined.

(** ** [filter_by] and [filter_by_completed]: errors and closed form *)

Lemma getattr_field_ok e f :
  In f evaluation_fields -> exists o, getattr e f = Ok o.
Proof.
  intros H. simpl in H.
  repeat (destruct H as [<-|H]; [eexists; reflexivity|]). destruct H.
Qed.

Lemma getattr_unknown e f :
  ~ In f evaluation_fields -> ~ In f evaluation_other_attrs ->
  getattr e f = Err AttributeError.
Proof.
  intros Hf Ho. unfold getattr.
  repeat match goal with
  | |- context [String.eqb f ?s] =>
      destruct (String.eqb_spec f s);
        [subst; exfalso; first [apply Hf; simpl; tauto | apply Ho; simpl; tauto]|]
  end.
  destruct (existsb (String.eqb f) evaluation_other_attrs) eqn:E; [|done].
  apply existsb_exists in E as (x & Hx & Heq). apply String.eqb_eq in Heq. subst.
  contradiction.
Qed.

Lemma filter_matching_field f vs l :
  In f evaluation_fields -> filter_matching f vs l = Ok (List.filter (field_matches f vs) l).
Proof.
  intros Hf. induction l as [|a l IH]; simpl; [done|].
  unfold field_matches, get_field.
  destruct (getattr_field_ok (get_evaluation a) f Hf) as [o Ho]. rewrite Ho. simpl.
  rewrite IH. simpl. by destruct (py_in o vs).
Qed.

Lemma filter_matching_unknown f vs l :
  ~ In f evaluation_fields -> ~ In f evaluation_other_attrs ->
  filter_matching f vs l = match l with [] => Ok [] | _ :: _ => Err AttributeError end.
Proof.
  intros Hf Ho. destruct l as [|a l]; simpl; [done|].
  unfold get_field. by rewrite getattr_unknown.
Qed.

Lemma filter_by_loop_unknown f vs entries acc :
  ~ In f evaluation_fields -> ~ In f evaluation_other_attrs ->
  filter_by_loop f vs entries acc =
  if forallb empty_group entries then Ok acc else Err AttributeError.
Proof.
  intros Hf Ho. revert acc.
  induction entries as [|[k g] rest IH]; intros acc; simpl; [done|].
  rewrite filter_matching_unknown by done. unfold empty_group. simpl.
  destruct g; simpl; [apply IH|done].
Qed.

Lemma filter_by_completed_loop_unknown {Rnd : Type} sample f vs entries acc (r : Rnd) :
  ~ In f evaluation_fields -> ~ In f evaluation_other_attrs ->
  filter_by_completed_loop sample f vs entries acc r =
  if forallb empty_group entries then Ok (acc, r) else Err AttributeError.
Proof.
  intros Hf Ho. revert acc.
  induction entries as [|[k g] rest IH]; intros acc; simpl; [done|].
  rewrite filter_matching_unknown by done. unfold empty_group. simpl.
  destruct g; simpl; [apply IH|done].
Qed.

Lemma filter_by_loop_field_ok f vs entries acc :
  In f evaluation_fields -> exists res, filter_by_loop f vs entries acc = Ok res.
Proof.
  intros Hf. revert acc.
  induction entries as [|[k g] rest IH]; intros acc; simpl; [eauto|].
  rewrite filter_matching_field by done. apply IH.
Qed.

Lemma filter_by_completed_loop_field_ok {Rnd : Type} sample f vs entries acc (r : Rnd) :
  In f evaluation_fields ->
  exists res r', filter_by_completed_loop sample f vs entries acc r = Ok (res, r').
Proof.
  intros Hf. revert acc r.
  induction entries as [|[k g] rest IH]; intros acc r; simpl; [eauto|].
  rewrite filter_matching_field by done. simpl.
  destruct (take_n_random_elements sample r _ _). apply IH.
Qed.

(** [filter_by] raises only for a name that is not an attribute of
    [Evaluation], and then exactly when some proposal holds an argument;
    for a field name it always returns a corpus. *)
Theorem filter_by_errors (c : Corpus) (f : string) (values : FilterValues) :
  (In f evaluation_fields -> exists res, filter_by c f values = Ok res) /\
  (~ In f evaluation_fields -> ~ In f evaluation_other_attrs ->
   filter_by c f values =
   if forallb empty_group c then Ok empty_corpus else Err AttributeError).
Proof.
  split; intros; unfold filter_by.
  - by apply filter_by_loop_field_ok.
  - by apply filter_by_loop_unknown.
Qed.

(** [filter_by_completed] raises only for a name that is not an attribute
    of [Evaluation], and then exactly when some proposal holds an
    argument (when none does it returns an empty corpus and leaves the
    random state alone); for a field name it always returns a corpus. *)
Theorem filter_by_completed_errors {Rnd : Type} sample (r : Rnd) (c : Corpus)
    (f : string) (values : FilterValues) :
  (In f evaluation_fields ->
   exists res r', filter_by_completed sample r c f values = Ok (res, r')) /\
  (~ In f evaluation_fields -> ~ In f evaluation_other_attrs ->
   filter_by_completed sample r c f values =
   if forallb empty_group c then Ok (empty_corpus, r) else Err AttributeError).
Proof.
  split; intros; unfold filter_by_completed.
  - by apply filter_by_completed_loop_field_ok.
  - by apply filter_by_completed_loop_unknown.
Qed.

Lemma corpus_lookup_app k c1 c2 :
  corpus_lookup k (c1 ++ c2) =
  match corpus_lookup k c1 with Some v => Some v | None => corpus_lookup k c2 end.
Proof.
  induction c1 as [|[k0 v0] c1 IH]; simpl; [done|]. by destruct (Z.eqb k k0).
Qed.

Lemma corpus_set_absent k v c :
  corpus_lookup k c = None -> corpus_set k v c = c ++ [(k, v)].
Proof.
  induction c as [|[k0 v0] c IH]; simpl; [done|].
  destruct (Z.eqb k k0); [discriminate|]. intros H. by rewrite IH.
Qed.

Lemma corpus_set_last k v l c :
  corpus_lookup k c = None -> corpus_set k v (c ++ [(k, l)]) = c ++ [(k, v)].
Proof.
  induction c as [|[k0 v0] c IH]; simpl; [by rewrite Z.eqb_refl|].
  destruct (Z.eqb k k0); [discriminate|]. intros H. by rewrite IH.
Qed.

Lemma append_all_last acc k l t :
  corpus_lookup k acc = None ->
  append_all_arguments (acc ++ [(k, l)]) k t = acc ++ [(k, l ++ t)].
Proof.
  intros Hk. revert l. induction t as [|a t IH]; intros l; simpl.
  - by rewrite app_nil_r.
  - unfold append_argument. rewrite corpus_lookup_app, Hk. simpl. rewrite Z.eqb_refl.
    rewrite corpus_set_last by done. rewrite IH. by rewrite <- app_assoc.
Qed.

(** Appending under a key the dict does not hold yet, arguments carrying
    that key, adds one entry at the end (none if there is nothing to add). *)
Lemma append_all_absent acc k m :
  corpus_lookup k acc = None -> Forall (fun a => id_proposal a = k) m ->
  append_all_arguments acc k m =
  acc ++ match m with [] => [] | a :: t => [(k, a :: t)] end.
Proof.
  intros Hk Hm. destruct m as [|a t]; simpl; [by rewrite app_nil_r|].
  inversion Hm as [|? ? Ha _]; subst.
  unfold append_argument. rewrite Hk, corpus_set_absent by done.
  by apply append_all_last.
Qed.

Lemma filter_by_loop_field f vs entries acc :
  In f evaluation_fields -> corpus_wf entries ->
  (forall k, corpus_lookup k entries <> None -> corpus_lookup k acc = None) ->
  filter_by_loop f vs entries acc = Ok (acc ++ keep_entries (field_matches f vs) entries).
Proof.
  intros Hf. revert acc.
  induction entries as [|[k g] rest IH]; intros acc Hwf Hacc; simpl.
  - by rewrite app_nil_r.
  - apply corpus_wf_cons in Hwf as (Hwf & Habs & Hids).
    rewrite filter_matching_field by done. simpl.
    assert (Hacc_k : corpus_lookup k acc = None)
      by (apply Hacc; simpl; rewrite Z.eqb_refl; discriminate).
    assert (Hm : Forall (fun a => id_proposal a = k) (List.filter (field_matches f vs) g)).
    { apply Forall_forall. intros a Ha. apply list_elem_of_In, filter_In in Ha.
      rewrite Forall_forall in Hids. apply Hids, list_elem_of_In, Ha. }
    rewrite append_all_absent by done. rewrite IH; [by rewrite <- app_assoc|done|].
    intros k' Hk'. rewrite corpus_lookup_app.
    assert (Hne : k' <> k) by (intros ->; congruence).
    rewrite Hacc; [|simpl; by rewrite (proj2 (Z.eqb_neq k' k) Hne)].
    destruct (List.filter (field_matches f vs) g); simpl; [done|].
    by rewrite (proj2 (Z.eqb_neq k' k) Hne).
Qed.

(** On a corpus as the module builds it and a field name, [filter_by]
    keeps, proposal by proposal in the order of the dict, the arguments
    whose field is one of the values, in their order, and leaves out the
    proposals where none is left. *)
Theorem filter_by_fields (c : Corpus) (f : string) (values : FilterValues)
    (Hwf : corpus_wf c) (Hf : In f evaluation_fields) :
  filter_by c f values = Ok (keep_entries (field_matches f (values_list values)) c).
Proof.
  unfold filter_by. rewrite filter_by_loop_field; [done|done|done|]. done.
Qed.

Lemma filter_andb (p q : EvaluatedArgument -> bool) l :
  List.filter (fun a => p a && q a) l = List.filter q (List.filter p l).
Proof.
  induction l as [|a l IH]; simpl; [done|].
  destruct (p a); simpl; [destruct (q a)|]; by rewrite IH.
Qed.

Lemma keep_entries_keep p q c :
  keep_entries q (keep_entries p c) = keep_entries (fun a => p a && q a) c.
Proof.
  induction c as [|[k g] c IH]; simpl; [done|].
  unfold keep_entries in *. rewrite flat_map_app, IH, filter_andb.
  destruct (List.filter p g) as [|a t]; simpl; [done|].
  by rewrite app_nil_r.
Qed.

Lemma keep_entries_ext p q c :
  (forall a, p a = q a) -> keep_entries p c = keep_entries q c.
Proof.
  intros Hpq. unfold keep_entries. induction c as [|[k g] c IH]; simpl; [done|].
  rewrite IH. by rewrite (List.filter_ext p q Hpq).
Qed.

(** On a corpus as the module builds it, filtering by one field and then
    by another keeps the arguments matching both, and the order of the two
    filters does not matter. *)
Theorem filter_by_compose (c : Corpus) (f1 f2 : string) (v1 v2 : FilterValues)
    (Hwf : corpus_wf c) (Hf1 : In f1 evaluation_fields) (Hf2 : In f2 evaluation_fields) :
  (let* c1 := filter_by c f1 v1 in filter_by c1 f2 v2) =
  Ok (keep_entries (fun a => field_matches f1 (values_list v1) a &&
                             field_matches f2 (values_list v2) a) c) /\
  (let* c1 := filter_by c f1 v1 in filter_by c1 f2 v2) =
  (let* c2 := filter_by c f2 v2 in filter_by c2 f1 v1).
Proof.
  assert (Hc : forall g1 g2 w1 w2, In g1 evaluation_fields -> In g2 evaluation_fields ->
    (let* c1 := filter_by c g1 w1 in filter_by c1 g2 w2) =
    Ok (keep_entries (fun a => field_matches g1 (values_list w1) a &&
                               field_matches g2 (values_list w2) a) c)).
  { intros g1 g2 w1 w2 H1 H2. pose proof (filter_by_fields c g1 w1 Hwf H1) as E1.
    rewrite E1. simpl. rewrite filter_by_fields; [by rewrite keep_entries_keep| |done].
    by eapply filter_by_wf. }
  split; [by apply Hc|]. rewrite !Hc by done. f_equal.
  apply keep_entries_ext. intros a. apply andb_comm.
Qed.

(** On a corpus as the module builds it, filtering a second time by the
    same field and values changes nothing. *)
Theorem filter_by_idempotent (c res : Corpus) (f : string) (values : FilterValues)
    (Hwf : corpus_wf c) (Hf : In f evaluation_fields)
    (Hres : filter_by c f values = Ok res) :
  filter_by res f values = Ok res.
Proof.
  pose proof (filter_by_fields c f values Hwf Hf) as E. rewrite Hres in E.
  injection E as ->. rewrite filter_by_fields; [| |done].
  - rewrite keep_entries_keep. f_equal. apply keep_entries_ext.
    intros a. apply andb_diag.
  - eapply filter_by_wf; [exact Hwf|]. apply filter_by_fields; done.
Qed.

Lemma filter_by_completed_fields_at {Rnd : Type} sample (Hs : sample_ok sample)
    (r : Rnd) (c : Corpus) (f : string) (values : FilterValues)
    (Hwf : corpus_wf c) (Hf : In f evaluation_fields) :
  exists res r', filter_by_completed sample r c f values = Ok (res, r') /\
    forall k,
      match corpus_lookup k c with
      | None => corpus_lookup k res = None
      | Some g =>
          let m := List.filter (field_matches f (values_list values)) g in
          let n := List.filter is_non_argument g in
          exists s, s ⊆+ n /\ length s = Nat.min (length m) (length n) /\
            corpus_lookup k res = entry_after None (m ++ s)
      end.
Proof.
  destruct (filter_by_completed_loop_field_ok sample f (values_list values) c
              empty_corpus r Hf) as (res & r' & E).
  exists res, r'. split; [exact E|]. intros k.
  destruct (filter_by_completed_loop_at sample Hs f _ c empty_corpus r res r' k Hwf E)
    as [H1 H2].
  destruct (corpus_lookup k c) as [g|] eqn:Eg; [|by apply H1].
  destruct (H2 g eq_refl) as (r0 & matched & Em & Hk).
  rewrite filter_matching_field in Em by done. injection Em as <-.
  simpl. exists (fst (take_n_random_elements sample r0 (List.filter is_non_argument g)
                   (length (List.filter (field_matches f (values_list values)) g)))).
  split; [by apply take_n_sub|]. split.
  - rewrite take_n_length by done. lia.
  - rewrite Hk. apply entry_after_app.
Qed.

(** On a corpus as the module builds it and a field name,
    [filter_by_completed] returns a corpus in which each proposal of the
    input holds its matching arguments, in order, followed by as many
    non-arguments ([claim_premise != 1]) of the proposal as there are
    matching arguments (all of them if there are fewer), drawn without
    replacement; a proposal left with nothing is absent, and no other key
    appears. *)
Theorem filter_by_completed_fields {Rnd : Type} sample (Hs : sample_ok sample)
    (r : Rnd) (c : Corpus) (f : string) (values : FilterValues)
    (Hwf : corpus_wf c) (Hf : In f evaluation_fields) :
  exists res r', filter_by_completed sample r c f values = Ok (res, r') /\
    forall k,
      match corpus_lookup k c with
      | None => corpus_lookup k res = None
      | Some g =>
          let m := List.filter (field_matches f (values_list values)) g in
          let n := List.filter is_non_argument g in
          exists s, s ⊆+ n /\ length s = Nat.min (length m) (length n) /\
            corpus_lookup k res = entry_after None (m ++ s)
      end.
Proof. by apply filter_by_completed_fields_at. Qed.


Lemma filter_by_errors_witness :
  filter_by ex_corpus_5_2 "clain" (VOne (Some 1%Z)) = Err AttributeError.
Proof.
  rewrite (proj2 (filter_by_errors ex_corpus_5_2 "clain" (VOne (Some 1%Z))));
    [reflexivity| |]; intros H; simpl in H; intuition discriminate.
Defined.

Lemma filter_by_completed_errors_witness :
  filter_by_completed sample_first tt [(3%Z, [])] "clain" (VOne None) =
  Ok (empty_corpus, tt).
Proof.
  rewrite (proj2 (filter_by_completed_errors sample_first tt [(3%Z, [])] "clain" (VOne None)));
    [reflexivity| |]; intros H; simpl in H; intuition discriminate.
Defined.

Lemma filter_by_fields_witness :
  corpus_wf ex_corpus_5_2 /\
  filter_by ex_corpus_5_2 "claim_premise" (VOne (Some 0%Z)) =
  Ok [(1%Z, [ex_arg 1 6 ev_neg; ex_arg 1 7 ev_neg]); (2%Z, [ex_arg 2 8 ev_neg])].
Proof.
  split; [vm_compute; reflexivity|].
  rewrite (filter_by_fields ex_corpus_5_2 "claim_premise" (VOne (Some 0%Z)));
    [vm_compute; reflexivity|vm_compute; reflexivity|simpl; tauto].
Defined.

Lemma filter_by_compose_witness :
  (let* c1 := filter_by ex_corpus_5_2 "claim_premise" (VOne (Some 1%Z)) in
   filter_by c1 "aspect" (VList [Some 1%Z; None])) =
  (let* c2 := filter_by ex_corpus_5_2 "aspect" (VList [Some 1%Z; None]) in
   filter_by c2 "claim_premise" (VOne (Some 1%Z))).
Proof.
  apply (filter_by_compose ex_corpus_5_2 "claim_premise" "aspect"
           (VOne (Some 1%Z)) (VList [Some 1%Z; None]));
    [vm_compute; reflexivity|simpl; tauto|simpl; tauto].
Defined.

Lemma filter_by_idempotent_witness :
  filter_by [(1%Z, [ex_arg 1 6 ev_neg; ex_arg 1 7 ev_neg]); (2%Z, [ex_arg 2 8 ev_neg])]
    "claim_premise" (VOne (Some 0%Z)) =
  Ok [(1%Z, [ex_arg 1 6 ev_neg; ex_arg 1 7 ev_neg]); (2%Z, [ex_arg 2 8 ev_neg])].
Proof.
  apply (filter_by_idempotent ex_corpus_5_2); [vm_compute; reflexivity|simpl; tauto|].
  vm_compute. reflexivity.
Defined.

Lemma filter_by_completed_fields_witness :
  exists res r',
    filter_by_completed sample_first tt ex_corpus_5_2 "claim_premise" (VOne (Some 1%Z)) =
    Ok (res, r').
Proof.
  destruct (filter_by_completed_fields sample_first sample_first_ok tt ex_corpus_5_2
              "claim_premise" (VOne (Some 1%Z))) as (res & r' & E & _);
    [vm_compute; reflexivity|simpl; tauto|].
  exists res, r'. exact E.
Defined.

(** ** [create_complete_corpus] *)

Lemma complete_step_nonarg st row :
  is_argument_row row = false -> complete_step st row = Ok st.
Proof. unfold is_argument_row, complete_step. intros H. by rewrite H. Qed.

Lemma complete_step_arg st row a pre :
  complete_inv st pre -> is_argument_row row = true -> row_argument row = Ok a ->
  exists st', complete_step st row = Ok st' /\ complete_inv st' (pre ++ [a]).
Proof.
  intros (Hlk & Hm1 & Hlast) Hrow Ha.
  unfold row_argument in Ha.
  destruct (int_ (id_propuesta row)) as [p|] eqn:Ep; simpl in Ha; [|discriminate].
  destruct (row_evaluation row) as [e|] eqn:Ee; simpl in Ha; [|discriminate].
  destruct (int_ (id_elemento row)) as [i|] eqn:Ei; simpl in Ha; [|discriminate].
  injection Ha as <-.
  unfold complete_step. unfold is_argument_row in Hrow. rewrite Hrow. simpl.
  destruct (Z.eqb_spec (cc_proposal_id st) (-1)) as [Hp|Hp]; simpl.
  - rewrite Ep. simpl. rewrite Ee. simpl. rewrite Ei. simpl.
    eexists. split; [reflexivity|].
    unfold complete_inv. simpl. rewrite removelast_last, last_snoc.
    split; [|split; [done|split; done]].
    intros k Hk. rewrite Hlk by done. f_equal.
    destruct (last pre) as [cur|] eqn:El.
    + apply last_Some in El as [pre' ->]. rewrite removelast_last, List.filter_app. simpl.
      destruct Hlast as [Hc _]. rewrite <- Hc, Hp.
      rewrite (proj2 (Z.eqb_neq (-1) k)) by congruence. by rewrite app_nil_r.
    + apply last_None in El. by subst.
  - destruct (last pre) as [cur|] eqn:El; [|contradiction].
    destruct Hlast as [Hc Hd]. rewrite Hd. simpl.
    rewrite Ep. simpl. rewrite Ee. simpl. rewrite Ei. simpl.
    eexists. split; [reflexivity|].
    change (append_argument (cc_corpus st) (cc_proposal_id st) cur)
      with (append_all_arguments (cc_corpus st) (cc_proposal_id st) [cur]).
    apply last_Some in El as [pre' ->]. rewrite removelast_last in Hlk.
    assert (Hcur : Forall (fun x => id_proposal x = cc_proposal_id st) [cur])
      by (constructor; [done|constructor]).
    unfold complete_inv. cbn [cc_corpus cc_proposal_id cc_data].
    rewrite removelast_last, last_snoc.
    split; [|split; [|split; done]].
    + intros k Hk. rewrite List.filter_app.
      destruct (Z.eq_dec k (cc_proposal_id st)) as [->|Hne].
      * rewrite append_all_lookup_same by done. rewrite Hlk by done.
        rewrite entry_after_app. cbn [List.filter]. by rewrite <- Hc, Z.eqb_refl.
      * rewrite append_all_lookup_other by done. rewrite Hlk by done.
        cbn [List.filter]. rewrite (proj2 (Z.eqb_neq (id_proposal cur) k)) by congruence.
        by rewrite app_nil_r.
    + rewrite append_all_lookup_other by (done || congruence). done.
Qed.

Lemma complete_run_spec rows st pre args :
  complete_inv st pre ->
  map_result row_argument (List.filter is_argument_row rows) = Ok args ->
  exists st', complete_run st rows = Ok st' /\ complete_inv st' (pre ++ args).
Proof.
  revert st pre args. induction rows as [|row rows IH]; intros st pre args Hinv H; simpl in *.
  - injection H as <-. exists st. by rewrite app_nil_r.
  - destruct (is_argument_row row) eqn:R; simpl in H.
    + destruct (row_argument row) as [a|] eqn:Ea; simpl in H; [|discriminate].
      destruct (map_result row_argument (List.filter is_argument_row rows)) as [t|] eqn:Et;
        simpl in H; [|discriminate].
      injection H as <-.
      destruct (complete_step_arg st row a pre Hinv R Ea) as (st1 & E1 & Hinv1).
      rewrite E1. simpl.
      destruct (IH st1 (pre ++ [a]) t Hinv1 eq_refl) as (st' & E' & Hinv').
      exists st'. split; [done|]. by rewrite <- app_assoc in Hinv'.
    + rewrite complete_step_nonarg by done. simpl. by apply IH.
Qed.

Lemma create_complete_corpus_at (rows : list Row) (args : list EvaluatedArgument)
    (Hargs : map_result row_argument (List.filter is_argument_row rows) = Ok args) :
  exists c, create_complete_corpus rows = Ok c /\ corpus_wf c /\
    (forall k, k <> (-1)%Z -> corpus_lookup k c =
       entry_after None (List.filter (fun a => Z.eqb (id_proposal a) k) (removelast args))) /\
    corpus_lookup (-1)%Z c = None.
Proof.
  assert (Hinit : complete_inv complete_init []) by (repeat split).
  destruct (complete_run_spec rows complete_init [] args Hinit Hargs)
    as (st & E & Hlk & Hm1 & _).
  unfold create_complete_corpus. rewrite E. simpl.
  exists (cc_corpus st). split; [done|]. split; [|split; done].
  apply (create_complete_corpus_wf rows). unfold create_complete_corpus. by rewrite E.
Qed.

(** When every argument row parses, [create_complete_corpus] returns a
    dict holding, under each proposal id other than [-1], the arguments of
    that proposal in file order, wherever their rows are in the file, all
    but the one of the last argument row of the file; nothing is stored
    under [-1], and rows of another type are skipped. *)
Theorem create_complete_corpus_spec (rows : list Row) (args : list EvaluatedArgument)
    (Hargs : map_result row_argument (List.filter is_argument_row rows) = Ok args) :
  exists c, create_complete_corpus rows = Ok c /\ corpus_wf c /\
    (forall k, k <> (-1)%Z -> corpus_lookup k c =
       entry_after None (List.filter (fun a => Z.eqb (id_proposal a) k) (removelast args))) /\
    corpus_lookup (-1)%Z c = None.
Proof. exact (create_complete_corpus_at rows args Hargs). Qed.

Lemma field_matches_claim_premise l :
  List.filter (field_matches "claim_premise" [Some 1%Z]) l = List.filter is_argument l.
Proof.
  pose proof (filter_matching_claim_premise l) as E.
  rewrite filter_matching_field in E by (simpl; tauto). by injection E.
Qed.

(** When every argument row parses, [classify_arguments_or_not] returns,
    under each proposal id other than [-1], the arguments of the proposal
    ([claim_premise == 1]) in file order followed by as many of its
    non-arguments as there are arguments (all of them if there are
    fewer), drawn without replacement, leaving out the last argument row
    of the file; nothing is stored under [-1]. *)
Theorem classify_arguments_or_not_spec {Rnd : Type} sample (Hs : sample_ok sample)
    (r : Rnd) (rows : list Row) (args : list EvaluatedArgument)
    (Hargs : map_result row_argument (List.filter is_argument_row rows) = Ok args) :
  exists res r', classify_arguments_or_not sample r rows = Ok (res, r') /\
    corpus_lookup (-1)%Z res = None /\
    forall k, k <> (-1)%Z ->
      let g := List.filter (fun a => Z.eqb (id_proposal a) k) (removelast args) in
      let m := List.filter is_argument g in
      let n := List.filter is_non_argument g in
      exists s, s ⊆+ n /\ length s = Nat.min (length m) (length n) /\
        corpus_lookup k res = entry_after None (m ++ s).
Proof.
  destruct (create_complete_corpus_at rows args Hargs) as (c & Ec & Hwf & Hk & Hm1).
  destruct (filter_by_completed_fields_at sample Hs r c "claim_premise"
              (VOne (Some 1%Z)) Hwf) as (res & r' & E & Hres); [simpl; tauto|].
  exists res, r'. unfold classify_arguments_or_not. rewrite Ec. simpl.
  split; [exact E|]. split.
  - specialize (Hres (-1)%Z). by rewrite Hm1 in Hres.
  - intros k Hk1. specialize (Hres k). rewrite Hk in Hres by done. simpl in Hres.
    simpl. rewrite <- field_matches_claim_premise.
    destruct (List.filter (fun a => Z.eqb (id_proposal a) k) (removelast args))
      as [|a0 t] eqn:Eg.
    + exists []. simpl. split; [done|]. split; [done|]. exact Hres.
    + exact Hres.
Qed.

Lemma create_complete_corpus_spec_witness :
  exists c, create_complete_corpus ex_rows_one_group = Ok c /\
    corpus_lookup 1 c = Some [ex_arg 1 1 ev_pos].
Proof.
  destruct (create_complete_corpus_spec ex_rows_one_group
              [ex_arg 1 1 ev_pos; ex_arg 1 2 ev_neg]) as (c & E & _ & Hk & _);
    [vm_compute; reflexivity|].
  exists c. split; [exact E|]. rewrite Hk by discriminate. reflexivity.
Defined.

Lemma classify_arguments_or_not_spec_witness :
  exists res r', classify_arguments_or_not sample_first tt ex_rows_5_2 = Ok (res, r') /\
    corpus_lookup (-1)%Z res = None.
Proof.
  destruct (classify_arguments_or_not_spec sample_first sample_first_ok tt ex_rows_5_2
              (ex_group_5_2 ++ [ex_arg 2 8 ev_neg])) as (res & r' & E & Hm1 & _);
    [vm_compute; reflexivity|].
  exists res, r'. split; [exact E|exact Hm1].
Defined.

(** ** The one-pass functions on proposal [-1] *)

Lemma opt_run_app {Rnd : Type} sample bucket_of (st : @OptState Rnd) l1 l2 :
  opt_run sample bucket_of st (l1 ++ l2) =
  let* st' := opt_run sample bucket_of st l1 in opt_run sample bucket_of st' l2.
Proof.
  revert st. induction l1 as [|row l1 IH]; intros st; simpl; [done|].
  destruct (opt_step sample bucket_of st row); simpl; [apply IH|done].
Qed.

Lemma opt_run_nonargs {Rnd : Type} sample bucket_of (st : @OptState Rnd) pre :
  Forall (fun row => is_argument_row row = false) pre ->
  opt_run sample bucket_of st pre = Ok st.
Proof.
  revert st. induction pre as [|row pre IH]; intros st H; simpl; [done|].
  inversion H as [|? ? Hr Hpre]; subst.
  unfold opt_step. unfold is_argument_row in Hr. rewrite Hr. simpl. by apply IH.
Qed.

Lemma opt_step_init_unbound {Rnd : Type} sample bucket_of (r : Rnd) row a b :
  is_argument_row row = true -> row_argument row = Ok a -> id_proposal a = (-1)%Z ->
  bucket_of row = Some b ->
  opt_step sample bucket_of (opt_init r) row = Err UnboundLocalError.
Proof.
  intros Hrow Ha Hpid Hb. unfold row_argument in Ha.
  destruct (int_ (id_propuesta row)) as [p|] eqn:Ep; simpl in Ha; [|discriminate].
  destruct (row_evaluation row) as [e|] eqn:Ee; simpl in Ha; [|discriminate].
  destruct (int_ (id_elemento row)) as [i|] eqn:Ei; simpl in Ha; [|discriminate].
  injection Ha as <-. simpl in Hpid. subst p.
  unfold opt_step. unfold is_argument_row in Hrow. rewrite Hrow, Ep. simpl.
  rewrite Ee. simpl. rewrite Ei. simpl. by rewrite Hb.
Qed.

(** In the one-pass functions the first argument row of the file, if it
    parses and has proposal id [-1], does not start a group, so the lists
    [evaluated_data] and [non_evaluated_data] are still unbound when it is
    appended: [classify_arguments_or_not_opt] raises [UnboundLocalError],
    and so does [classify_arguments_or_not_with_aspect_opt] unless the row
    goes to neither list (claim+premise ["1"], aspect not ["1"]). *)
Theorem classify_opt_first_row_minus_one {Rnd : Type} sample (r : Rnd)
    (pre rest : list Row) (row : Row) (a : EvaluatedArgument)
    (Hpre : Forall (fun x => is_argument_row x = false) pre)
    (Hrow : is_argument_row row = true) (Ha : row_argument row = Ok a)
    (Hpid : id_proposal a = (-1)%Z) :
  classify_arguments_or_not_opt sample r (pre ++ row :: rest) = Err UnboundLocalError /\
  (bucket_claim_premise_aspect row <> None ->
   classify_arguments_or_not_with_aspect_opt sample r (pre ++ row :: rest) =
   Err UnboundLocalError).
Proof.
  unfold classify_arguments_or_not_opt, classify_arguments_or_not_with_aspect_opt.
  split; [|intros Hb; destruct (bucket_claim_premise_aspect row) as [b|] eqn:Eb;
           [|contradiction]];
    rewrite opt_run_app, opt_run_nonargs by done; simpl;
    (erewrite opt_step_init_unbound; [reflexivity|done|done|done|]);
    [reflexivity|exact Eb].
Qed.

Lemma classify_opt_first_row_minus_one_witness :
  classify_arguments_or_not_opt sample_first tt
    [ex_row "-1" "1" "1" "1" "1"; ex_row "2" "2" "1" "0" "1"] = Err UnboundLocalError.
Proof.
  destruct (classify_opt_first_row_minus_one sample_first tt [] [ex_row "2" "2" "1" "0" "1"]
              (ex_row "-1" "1" "1" "1" "1") (ex_arg (-1) 1 ev_pos)) as [H _];
    [constructor|reflexivity|vm_compute; reflexivity|reflexivity|exact H].
Defined.

(** ** [classify_arguments_or_not_with_aspect] *)

Lemma entry_after_None_Some x l : entry_after None x = Some l -> l = x.
Proof. destruct x; simpl; congruence. Qed.

(** Every argument [filter_by_completed] stores matches the filter or is a
    non-argument. *)
Lemma filter_by_completed_elems {Rnd : Type} sample (Hs : sample_ok sample)
    (r : Rnd) c f values res r' :
  corpus_wf c -> In f evaluation_fields ->
  filter_by_completed sample r c f values = Ok (res, r') ->
  forall k l, corpus_lookup k res = Some l ->
    Forall (fun a => field_matches f (values_list values) a = true \/
                     is_non_argument a = true) l.
Proof.
  intros Hwf Hf E k l Hl.
  destruct (filter_by_completed_fields_at sample Hs r c f values Hwf Hf)
    as (res0 & r0 & E0 & H). rewrite E in E0. injection E0 as <- _.
  specialize (H k). destruct (corpus_lookup k c) as [g|]; [|congruence].
  destruct H as (s & Hs_sub & _ & Hk). rewrite Hl in Hk.
  symmetry in Hk. apply entry_after_None_Some in Hk. subst l.
  apply Forall_app. split; apply Forall_forall; intros a Ha.
  - left. apply list_elem_of_In, filter_In in Ha. apply Ha.
  - right. eapply elem_of_submseteq in Hs_sub; [|exact Ha].
    apply list_elem_of_In, filter_In in Hs_sub. apply Hs_sub.
Qed.

Lemma field_matches_aspect_one a :
  field_matches "aspect" [Some 1%Z] a = true -> aspect (evaluation a) = Some 1%Z.
Proof.
  unfold field_matches, get_field, getattr, get_evaluation. simpl.
  destruct (aspect (evaluation a)) as [z|]; simpl; [|discriminate].
  rewrite orb_false_r. intros H. apply Z.eqb_eq in H. by subst.
Qed.

(** Every argument ([claim_premise == 1]) in the corpus that
    [classify_arguments_or_not_with_aspect] returns has [aspect == 1];
    the rest of the corpus is non-arguments. *)
Theorem classify_with_aspect_arguments_have_aspect {Rnd : Type} sample
    (Hs : sample_ok sample) (r : Rnd) (rows : list Row) (res : Corpus) (r' : Rnd)
    (H : classify_arguments_or_not_with_aspect sample r rows = Ok (res, r')) :
  forall k l, corpus_lookup k res = Some l ->
    Forall (fun a => is_argument a = true -> aspect (evaluation a) = Some 1%Z) l.
Proof.
  unfold classify_arguments_or_not_with_aspect in H.
  destruct (create_complete_corpus rows) as [c|] eqn:Ec; simpl in H; [|discriminate].
  destruct (filter_by_completed sample r c "claim_premise" (VOne (Some 1%Z)))
    as [[c1 r1]|] eqn:E1; simpl in H; [|discriminate].
  assert (Hwf1 : corpus_wf c1).
  { eapply (filter_by_completed_wf sample Hs); [|exact E1].
    by eapply create_complete_corpus_wf. }
  intros k l Hl.
  pose proof (filter_by_completed_elems sample Hs r1 c1 "aspect" (VOne (Some 1%Z)) res r'
                Hwf1 ltac:(simpl; tauto) H k l Hl) as F.
  eapply Forall_impl; [exact F|]. intros a [Ha|Ha] Harg.
  - by apply field_matches_aspect_one.
  - unfold is_argument in Harg. rewrite Ha in Harg. discriminate.
Qed.

Lemma classify_with_aspect_arguments_have_aspect_witness :
  classify_arguments_or_not_with_aspect sample_first tt ex_rows_5_2 =
    Ok ([(1%Z, ex_group_5_2 ++ [ex_arg 1 6 ev_neg; ex_arg 1 7 ev_neg])], tt) /\
  Forall (fun a => is_argument a = true -> aspect (evaluation a) = Some 1%Z)
    (ex_group_5_2 ++ [ex_arg 1 6 ev_neg; ex_arg 1 7 ev_neg]).
Proof.
  assert (E : classify_arguments_or_not_with_aspect sample_first tt ex_rows_5_2 =
    Ok ([(1%Z, ex_group_5_2 ++ [ex_arg 1 6 ev_neg; ex_arg 1 7 ev_neg])], tt))
    by (vm_compute; reflexivity).
  split; [exact E|].
  exact (classify_with_aspect_arguments_have_aspect sample_first sample_first_ok tt
           ex_rows_5_2 _ tt E 1%Z _ eq_refl).
Defined.

Lemma str_append_assoc (a b c : string) : ((a ++ b) ++ c)%string = (a ++ (b ++ c))%string.
Proof. induction a; simpl; [done|]. by rewrite IHa. Qed.

Lemma str_append_empty (s : string) : (s ++ EmptyString)%string = s.
Proof. induction s; simpl; [done|]. by rewrite IHs. Qed.

Lemma str_cons_app c (x y : string) : (String c x ++ y)%string = String c (x ++ y).
Proof. reflexivity. Qed.

Ltac str_norm := repeat (rewrite str_append_assoc || rewrite str_cons_app).

Lemma has_char_app ch (a b : string) :
  has_char ch (a ++ b)%string = has_char ch a || has_char ch b.
Proof. induction a as [|c a IH]; simpl; [done|]. rewrite IH. apply orb_assoc. Qed.

Lemma split_on_nosep_app sep (a b : string) :
  has_char sep a = false -> split_on sep (a ++ String sep b) = a :: split_on sep b.
Proof.
  induction a as [|c a IH]; intros H; simpl.
  - by rewrite Ascii.eqb_refl.
  - simpl in H. apply orb_false_iff in H as [H1 H2]. rewrite H1, IH by done. done.
Qed.

Lemma split_on_nosep sep (a : string) :
  has_char sep a = false -> split_on sep a = [a].
Proof.
  induction a as [|c a IH]; intros H; simpl; [done|].
  simpl in H. apply orb_false_iff in H as [H1 H2]. rewrite H1, IH by done. done.
Qed.

Lemma split_on_concat sep (xs : list string) :
  xs <> [] -> Forall (fun x => has_char sep x = false) xs ->
  split_on sep (String.concat (String sep EmptyString) xs) = xs.
Proof.
  induction xs as [|x [|y t] IH]; intros Hne H; [done| |].
  - inversion H; subst. simpl. by apply split_on_nosep.
  - inversion H as [|? ? Hx Ht]; subst.
    change (String.concat (String sep "") (x :: y :: t))
      with (x ++ String sep (String.concat (String sep "") (y :: t)))%string.
    rewrite split_on_nosep_app by done. rewrite IH; [done|discriminate|done].
Qed.

Lemma digits_acc_uint u acc :
  digits_acc (NilEmpty.string_of_uint u) (Zpos acc) = Some (Zpos (Pos.of_uint_acc u acc)).
Proof.
  revert acc. induction u; intros acc; simpl; try done;
    rewrite <- IHu; f_equal; lia.
Qed.

Lemma digits_acc_uint0 u :
  digits_acc (NilEmpty.string_of_uint u) 0 = Some (Z.of_N (Pos.of_uint u)).
Proof.
  induction u; simpl; try done; rewrite <- digits_acc_uint; f_equal.
Qed.

Lemma py_int_uint u :
  u <> Decimal.Nil ->
  py_int (NilEmpty.string_of_uint u) = Some (Z.of_N (Pos.of_uint u)).
Proof.
  intros Hu. rewrite <- digits_acc_uint0.
  destruct u; [done| | | | | | | | | |]; reflexivity.
Qed.

Lemma py_int_str_Z z : py_int (str_Z z) = Some z.
Proof.
  unfold str_Z. destruct z as [|p|p]; [reflexivity| |].
  - simpl. rewrite py_int_uint by apply DecimalPos.Unsigned.to_uint_nonnil.
    by rewrite DecimalPos.Unsigned.of_to.
  - assert (H : parse_digits (NilEmpty.string_of_uint (Pos.to_uint p)) = Some (Zpos p)).
    { pose proof (DecimalPos.Unsigned.to_uint_nonnil p) as Hn.
      pose proof (digits_acc_uint0 (Pos.to_uint p)) as E.
      rewrite DecimalPos.Unsigned.of_to in E. simpl in E. rewrite <- E.
      destruct (Pos.to_uint p); done. }
    change (option_map Z.opp (parse_digits (NilEmpty.string_of_uint (Pos.to_uint p)))
            = Some (Zneg p)).
    by rewrite H.
Qed.

Lemma has_char_uint u :
  has_char tab_char (NilEmpty.string_of_uint u) = false /\
  has_char nl_char (NilEmpty.string_of_uint u) = false.
Proof. induction u; simpl; try exact IHu; done. Qed.

Lemma has_char_str_Z z :
  has_char tab_char (str_Z z) = false /\ has_char nl_char (str_Z z) = false.
Proof. unfold str_Z. destruct z as [|p|p]; simpl; [done| |]; apply has_char_uint. Qed.

Lemma str_Z_not_None z : String.eqb (str_Z z) "None" = false.
Proof.
  unfold str_Z. destruct z as [|p|p]; simpl; [done| |done].
  pose proof (DecimalPos.Unsigned.to_uint_nonnil p).
  destruct (Pos.to_uint p); done.
Qed.

Lemma decode_value_str_opt o : decode_value (str_opt o) = Some o.
Proof.
  unfold decode_value. destruct o as [z|]; simpl; [|done].
  rewrite str_Z_not_None, py_int_str_Z. done.
Qed.

Lemma field_obj e f :
  In f evaluation_fields -> get_field e f = Ok (obj_of_opt (field_value e f)).
Proof.
  intros H. simpl in H.
  destruct H as [<-|[<-|[<-|[<-|[<-|[<-|[<-|[<-|[]]]]]]]]];
    unfold get_field, field_value, getattr; simpl; try reflexivity;
    match goal with |- context [obj_of_opt ?o] => destruct o; reflexivity end.
Qed.

Lemma str_obj_opt attr o : str_obj attr (obj_of_opt o) = str_opt o.
Proof. by destruct o. Qed.

Lemma Evaluation_format_file_fields attr e fields :
  Forall (fun f => In f evaluation_fields) fields ->
  Evaluation_format_file attr e fields =
  Ok (String.concat tab (map (fun f => str_opt (field_value e f)) fields)).
Proof.
  intros Hf. unfold Evaluation_format_file.
  assert (E : map_result (fun field => let* o := get_field e field in Ok (str_obj attr o)) fields
              = Ok (map (fun f => str_opt (field_value e f)) fields)).
  { induction fields as [|f fields IH]; simpl; [done|].
    inversion Hf; subst. rewrite field_obj by done. simpl. rewrite str_obj_opt.
    rewrite IH by done. done. }
  by rewrite E.
Qed.


Lemma lines_text_app l1 l2 :
  lines_text (l1 ++ l2) = (lines_text l1 ++ lines_text l2)%string.
Proof.
  induction l1 as [|x l1 IH]; simpl; [done|]. rewrite IH. by rewrite !str_append_assoc.
Qed.

Lemma format_file_arguments_spec attr pid fields args cad :
  Forall (fun f => In f evaluation_fields) fields ->
  format_file_arguments attr pid fields args cad =
  Ok (cad ++ lines_text (map (fun a => line_of fields (pid, a)) args))%string.
Proof.
  intros Hf. revert cad. induction args as [|a args IH]; intros cad; simpl.
  - by rewrite str_append_empty.
  - unfold EvaluatedArgument_format_file. rewrite Evaluation_format_file_fields by done.
    simpl. rewrite IH. f_equal. str_norm. reflexivity.
Qed.

Lemma format_file_loop_spec attr fields c cad :
  Forall (fun f => In f evaluation_fields) fields ->
  format_file_loop attr fields c cad =
  Ok (cad ++ lines_text (map (line_of fields) (corpus_entries c)))%string.
Proof.
  intros Hf. revert cad. induction c as [|[k g] c IH]; intros cad; simpl.
  - by rewrite str_append_empty.
  - rewrite format_file_arguments_spec by done. simpl. rewrite IH.
    unfold corpus_entries. simpl. rewrite map_app, lines_text_app, map_map.
    f_equal. by rewrite str_append_assoc.
Qed.

Lemma split_cols sep (a b : string) :
  has_char sep a = false ->
  split_on sep (a ++ String sep EmptyString ++ b) = a :: split_on sep b.
Proof. intros H. apply split_on_nosep_app, H. Qed.

Lemma split_lines (ls : list string) :
  Forall (fun l => has_char nl_char l = false) ls ->
  split_on nl_char (lines_text ls) = ls ++ [EmptyString].
Proof.
  induction ls as [|l ls IH]; intros H; [done|].
  inversion H as [|? ? Hl Hls]; subst.
  change (lines_text (l :: ls)) with (l ++ String nl_char EmptyString ++ lines_text ls)%string.
  rewrite split_cols by done. by rewrite IH.
Qed.

Lemma has_char_concat ch sep (xs : list string) :
  has_char ch sep = false -> Forall (fun x => has_char ch x = false) xs ->
  has_char ch (String.concat sep xs) = false.
Proof.
  intros Hs. induction xs as [|x [|y t] IH]; intros H; [done| |].
  - inversion H; subst. done.
  - inversion H as [|? ? Hx Ht]; subst.
    change (String.concat sep (x :: y :: t)) with (x ++ sep ++ String.concat sep (y :: t))%string.
    rewrite !has_char_app, Hx, Hs, IH by done. done.
Qed.

Lemma field_name_clean f :
  In f evaluation_fields -> has_char tab_char f = false /\ has_char nl_char f = false.
Proof.
  intros H. simpl in H.
  destruct H as [<-|[<-|[<-|[<-|[<-|[<-|[<-|[<-|[]]]]]]]]]; split; reflexivity.
Qed.

Lemma str_opt_clean o :
  has_char tab_char (str_opt o) = false /\ has_char nl_char (str_opt o) = false.
Proof. destruct o as [z|]; [apply has_char_str_Z|split; reflexivity]. Qed.

Lemma options_all_decode (vs : list (option Z)) :
  options_all (map decode_value (map str_opt vs)) = Some vs.
Proof.
  induction vs as [|v vs IH]; simpl; [done|]. rewrite decode_value_str_opt. simpl.
  by rewrite IH.
Qed.

Lemma line_of_cols fields k a :
  fields <> [] -> clean_text (argument a) = true ->
  split_on tab_char (line_of fields (k, a)) =
  [str_Z k; str_Z (id_argument a); argument a] ++
  map (fun f => str_opt (field_value (evaluation a) f)) fields.
Proof.
  intros Hne Hc. unfold clean_text in Hc. apply andb_prop in Hc as [Ht _].
  apply negb_true_iff in Ht. unfold line_of, tab.
  rewrite split_cols by apply has_char_str_Z.
  rewrite split_cols by apply has_char_str_Z.
  rewrite split_cols by done. simpl. f_equal. f_equal. f_equal.
  apply split_on_concat.
  - destruct fields; [done|discriminate].
  - apply Forall_forall. intros x Hx. apply list_elem_of_In, in_map_iff in Hx as (f & <- & _).
    apply str_opt_clean.
Qed.

Lemma line_of_no_nl fields k a :
  clean_text (argument a) = true -> has_char nl_char (line_of fields (k, a)) = false.
Proof.
  intros Hc. unfold clean_text in Hc. apply andb_prop in Hc as [_ Hn].
  apply negb_true_iff in Hn. unfold line_of.
  rewrite !has_char_app, (proj2 (has_char_str_Z k)), (proj2 (has_char_str_Z (id_argument a))), Hn.
  rewrite has_char_concat; [done|done|].
  apply Forall_forall. intros x Hx. apply list_elem_of_In, in_map_iff in Hx as (f & <- & _).
  apply str_opt_clean.
Qed.

Lemma decode_line_of fields k a :
  fields <> [] -> clean_text (argument a) = true ->
  decode_line (split_on tab_char (line_of fields (k, a))) =
  Some (k, id_argument a, argument a, map (field_value (evaluation a)) fields).
Proof.
  intros Hne Hc. rewrite line_of_cols by done. simpl.
  rewrite !py_int_str_Z, <- (map_map (field_value (evaluation a)) str_opt), options_all_decode.
  reflexivity.
Qed.

(** [save_to_file] (that is [Corpus.format_file]) with a nonempty list of
    known field names, on a corpus whose argument texts hold no tab and no
    newline, succeeds; its text splits at newlines into a header line, one
    line per argument in corpus order, and a final empty piece; the header
    splits at tabs into proposal_id, argument_id, argument and the fields;
    and each argument line splits at tabs into the proposal id, the argument
    id, the text and the field values ("None" for a missing one), which
    decode back to the argument's own values. *)
Theorem Corpus_format_file_roundtrip attr c fields (Hne : fields <> [])
  (Hf : Forall (fun f => In f evaluation_fields) fields)
  (Ht : Forall (fun ka => clean_text (argument (snd ka)) = true) (corpus_entries c)) :
  exists s header lines,
    save_to_file attr c fields = Ok s /\
    split_on nl_char s = header :: lines ++ [EmptyString] /\
    split_on tab_char header = ["proposal_id"; "argument_id"; "argument"]%string ++ fields /\
    map (fun l => decode_line (split_on tab_char l)) lines =
    map (fun '(k, a) => Some (k, id_argument a, argument a, map (field_value (evaluation a)) fields))
      (corpus_entries c).
Proof.
  pose proof (proj1 (Forall_forall _ _) Hf) as Hf'.
  pose proof (proj1 (Forall_forall _ _) Ht) as Ht'.
  assert (Hfc : Forall (fun x => has_char tab_char x = false) fields /\
                Forall (fun x => has_char nl_char x = false) fields).
  { split; apply Forall_forall; intros x Hx; apply field_name_clean, Hf'; done. }
  destruct Hfc as [Hft Hfn].
  set (header := ("proposal_id" ++ tab ++ "argument_id" ++ tab ++ "argument" ++ tab ++
                  String.concat tab fields)%string).
  set (lines := map (line_of fields) (corpus_entries c)).
  exists (header ++ String nl_char EmptyString ++ lines_text lines)%string, header, lines.
  split; [|split; [|split]].
  - unfold save_to_file, Corpus_format_file. rewrite format_file_loop_spec by done.
    f_equal. unfold header, nl. str_norm. reflexivity.
  - rewrite split_cols.
    + rewrite split_lines; [done|].
      apply Forall_forall. intros l Hl. unfold lines in Hl.
      apply list_elem_of_In, in_map_iff in Hl as ([k a] & <- & Hin).
      apply line_of_no_nl. apply (Ht' (k, a)). by apply list_elem_of_In.
    + unfold header. rewrite !has_char_app, has_char_concat; done.
  - unfold header, tab. rewrite !split_cols by done. simpl. f_equal. f_equal. f_equal.
    apply split_on_concat; done.
  - unfold lines. rewrite map_map. apply map_ext_in. intros [k a] Hin.
    apply decode_line_of; [done|]. apply (Ht' (k, a)). by apply list_elem_of_In.
Qed.


(** A concrete file written by [save_to_file]: the example corpus with the
    single field claim_premise. *)
Lemma Corpus_format_file_roundtrip_witness :
  ["claim_premise"%string] <> [] /\
  Forall (fun f => In f evaluation_fields) ["claim_premise"%string] /\
  Forall (fun ka => clean_text (argument (snd ka)) = true) (corpus_entries ex_corpus_5_2) /\
  exists s header lines,
    save_to_file (fun x => x) ex_corpus_5_2 ["claim_premise"%string] = Ok s /\
    split_on nl_char s = header :: lines ++ [EmptyString] /\
    split_on tab_char header = ["proposal_id"; "argument_id"; "argument"]%string ++ ["claim_premise"%string] /\
    map (fun l => decode_line (split_on tab_char l)) lines =
    map (fun '(k, a) => Some (k, id_argument a, argument a,
                              map (field_value (evaluation a)) ["claim_premise"%string]))
      (corpus_entries ex_corpus_5_2).
Proof.
  assert (Hne : ["claim_premise"%string] <> []) by discriminate.
  assert (Hf : Forall (fun f => In f evaluation_fields) ["claim_premise"%string])
    by (repeat constructor; simpl; tauto).
  assert (Ht : Forall (fun ka => clean_text (argument (snd ka)) = true)
                 (corpus_entries ex_corpus_5_2)) by (vm_compute; repeat constructor).
  split; [exact Hne|]. split; [exact Hf|]. split; [exact Ht|].
  exact (Corpus_format_file_roundtrip (fun x => x) ex_corpus_5_2 _ Hne Hf Ht).
Defined.

Lemma getattr_err e f err : getattr e f = Err err -> err = AttributeError.
Proof.
  unfold getattr.
  repeat (destruct (String.eqb _ _); [discriminate|]).
  destruct (existsb _ _); congruence.
Qed.

Lemma Evaluation_format_file_unknown attr e fields f :
  In f fields -> getattr e f = Err AttributeError ->
  Evaluation_format_file attr e fields = Err AttributeError.
Proof.
  intros Hin Hf. unfold Evaluation_format_file.
  enough (H : map_result (fun field => let* o := get_field e field in Ok (str_obj attr o)) fields
              = Err AttributeError) by (rewrite H; reflexivity).
  induction fields as [|x fields IH]; [destruct Hin|]. simpl.
  destruct (get_field e x) as [o|err] eqn:E; simpl.
  - destruct Hin as [->|Hin]; [unfold get_field in E; congruence|].
    by rewrite IH.
  - unfold get_field in E. by rewrite (getattr_err _ _ _ E).
Qed.

Lemma format_file_arguments_unknown attr pid fields args cad f :
  In f fields -> ~ In f evaluation_fields -> ~ In f evaluation_other_attrs ->
  format_file_arguments attr pid fields args cad =
  match args with [] => Ok cad | _ => Err AttributeError end.
Proof.
  intros Hin Hf Ho. destruct args as [|a args]; [done|]. simpl.
  unfold EvaluatedArgument_format_file.
  by rewrite (Evaluation_format_file_unknown attr _ _ f Hin (getattr_unknown _ _ Hf Ho)).
Qed.

Lemma format_file_loop_unknown attr fields c cad f :
  In f fields -> ~ In f evaluation_fields -> ~ In f evaluation_other_attrs ->
  format_file_loop attr fields c cad =
  match corpus_entries c with [] => Ok cad | _ => Err AttributeError end.
Proof.
  intros Hin Hf Ho. revert cad. induction c as [|[k g] c IH]; intros cad; [done|].
  simpl. rewrite (format_file_arguments_unknown attr k fields g cad f Hin Hf Ho).
  destruct g as [|a g]; simpl; [apply IH|done].
Qed.

(** [save_to_file] with a field name that is neither a field of [Evaluation]
    nor another attribute of it fails with AttributeError as soon as the
    corpus holds an argument; on a corpus without arguments it writes the
    header line only. *)
Theorem save_to_file_unknown_field attr c fields f
  (Hin : In f fields) (Hf : ~ In f evaluation_fields)
  (Ho : ~ In f evaluation_other_attrs) :
  save_to_file attr c fields =
  match corpus_entries c with
  | [] => Ok ("proposal_id" ++ tab ++ "argument_id" ++ tab ++ "argument" ++ tab
              ++ String.concat tab fields ++ nl)%string
  | _ => Err AttributeError
  end.
Proof.
  unfold save_to_file, Corpus_format_file.
  exact (format_file_loop_unknown attr fields c _ f Hin Hf Ho).
Qed.

(** The example corpus saved with the misspelt field "claim_premis". *)
Lemma save_to_file_unknown_field_witness :
  In "claim_premis"%string ["claim"; "claim_premis"]%string /\
  ~ In "claim_premis"%string evaluation_fields /\
  ~ In "claim_premis"%string evaluation_other_attrs /\
  save_to_file (fun x => x) ex_corpus_5_2 ["claim"; "claim_premis"]%string = Err AttributeError.
Proof.
  assert (Hin : In "claim_premis"%string ["claim"; "claim_premis"]%string) by (simpl; tauto).
  assert (Hf : ~ In "claim_premis"%string evaluation_fields)
    by (simpl; intuition discriminate).
  assert (Ho : ~ In "claim_premis"%string evaluation_other_attrs)
    by (simpl; intuition discriminate).
  split; [exact Hin|]. split; [exact Hf|]. split; [exact Ho|].
  exact (save_to_file_unknown_field (fun x => x) ex_corpus_5_2 _ _ Hin Hf Ho).
Defined.
